(** * sqlite3-to-mysql: the type translator and the transfer pipeline

    A shallow embedding of [sqlite3_to_mysql/transporter.py] (class
    [SQLite3toMySQL]) and the properties of its specification.

    Python [str] values are modelled as [string]; the characters are the
    7-bit ASCII range in which SQLite type names and the SQL text emitted by
    the program live, and [upper], [strip], [split] and the digits of the
    regular expressions are Python's restricted to that range
    ([ascii_text]).  On a [str] with other characters Python also strips
    the Unicode spaces, maps letters such as U+00E9 to their capitals and
    takes every decimal digit of Unicode for a digit; such declarations are
    outside the model, and the properties that speak of every declaration
    are stated for the declarations in [ascii_text].

    The methods that talk to the databases run in a state and error monad
    over the pending rows of the SQLite cursor and the calls issued to
    MySQL.  What SQLite answers to a query, an error included, is data of
    the model ([sqlite_db]); whether MySQL raises on a call is a parameter
    ([mysql_raises]).  The logger and the progress bar do not act on either
    database and are left out. *)

From Stdlib Require Import String Ascii List Bool Arith ZArith Lia Permutation.
From Stdlib Require DecimalString.
Import ListNotations.
Open Scope string_scope.

(* ================================================================== *)
(** ** Python string operations used by the program *)

Module PyStr.

(** [str.isspace] on one character of the ASCII range: TAB, LF, VT, FF,
    CR, FS, GS, RS, US and the space.  (Beyond that range Python has
    further spaces, U+0085 and U+00A0 among them.) *)
Definition is_space (c : ascii) : bool :=
  let n := nat_of_ascii c in
  (((9 <=? n) && (n <=? 13)) || ((28 <=? n) && (n <=? 32)))%nat.

(** The digits [\d] matches in the ASCII range.  (In a [str] pattern
    [\d] also matches the decimal digits of the other scripts.) *)
Definition is_digit (c : ascii) : bool :=
  let n := nat_of_ascii c in ((48 <=? n) && (n <=? 57))%nat.

(** [str.upper] on one character of the ASCII range: the letters a to z
    go to A to Z.  (Beyond that range Python maps further letters.) *)
Definition upper_char (c : ascii) : ascii :=
  let n := nat_of_ascii c in
  if ((97 <=? n) && (n <=? 122))%nat then ascii_of_nat (n - 32) else c.

(** [s.upper()] *)
Fixpoint upper (s : string) : string :=
  match s with
  | EmptyString => EmptyString
  | String c r => String (upper_char c) (upper r)
  end.

(** Longest prefix whose characters all satisfy [p], and what follows it. *)
Fixpoint take_while (p : ascii -> bool) (s : string) : string :=
  match s with
  | EmptyString => EmptyString
  | String c r => if p c then String c (take_while p r) else EmptyString
  end.

Fixpoint drop_while (p : ascii -> bool) (s : string) : string :=
  match s with
  | EmptyString => EmptyString
  | String c r => if p c then drop_while p r else s
  end.

(** [s.rstrip(chars)] with the character set given as a predicate. *)
Fixpoint rstrip_by (p : ascii -> bool) (s : string) : string :=
  match s with
  | EmptyString => EmptyString
  | String c r =>
      match rstrip_by p r with
      | EmptyString => if p c then EmptyString else String c EmptyString
      | r' => String c r'
      end
  end.

Definition lstrip_by (p : ascii -> bool) (s : string) : string :=
  drop_while p s.

(** [s.strip()] *)
Definition strip (s : string) : string :=
  rstrip_by is_space (lstrip_by is_space s).

(** Membership of a character in a set given as a string. *)
Fixpoint char_in (c : ascii) (chars : string) : bool :=
  match chars with
  | EmptyString => false
  | String d r => Ascii.eqb c d || char_in c r
  end.

(** [s.rstrip(chars)] *)
Definition rstrip_chars (chars s : string) : string :=
  rstrip_by (fun c => char_in c chars) s.

Definition is_empty (s : string) : bool :=
  match s with EmptyString => true | _ => false end.

(** [s.split()]: the maximal runs of non-whitespace characters.  [cur] is
    the word read so far. *)
Fixpoint split_acc (cur s : string) : list string :=
  match s with
  | EmptyString => if is_empty cur then [] else [cur]
  | String c r =>
      if is_space c
      then (if is_empty cur then split_acc EmptyString r
            else cur :: split_acc EmptyString r)
      else split_acc (cur ++ String c EmptyString) r
  end.

Definition split (s : string) : list string := split_acc EmptyString s.

(** [sep.join(l)] *)
Definition join (sep : string) (l : list string) : string :=
  String.concat sep l.

(** [w in s] for strings. *)
Fixpoint contains (w s : string) : bool :=
  String.prefix w s ||
  match s with
  | EmptyString => false
  | String _ r => contains w r
  end.

(** [x in {...}] for a set of strings given as a list. *)
Definition mem (x : string) (set : list string) : bool :=
  existsb (String.eqb x) set.

(** [str(n)] for a non-negative integer. *)
Definition str_of_N (n : N) : string :=
  DecimalString.NilEmpty.string_of_uint (N.to_uint n).

End PyStr.
Import PyStr.

(* ================================================================== *)
(** ** The two regular expressions *)

Module Re.

Definition not_lparen (c : ascii) : bool := negb (Ascii.eqb c "(").

(** [re.compile(r"^[^(]+").match(s)]: the match object's [group(0)], the
    longest non-empty run of characters other than ['('] at the start of
    [s]; [None] when there is no such run. *)
Definition COLUMN_PATTERN_match (s : string) : option string :=
  match take_while not_lparen s with
  | EmptyString => None
  | m => Some m
  end.

Definition newline : ascii := "010"%char.

(** [$] without [re.MULTILINE]: at the end of the string, or just before
    a newline that is the last character. *)
Definition at_dollar (rest : string) : bool :=
  match rest with
  | EmptyString => true
  | String c EmptyString => Ascii.eqb c newline
  | _ => false
  end.

(** [r"\(\d+\)$"] matched at the start of [s]; the result is [group(0)].
    [\d+] is greedy, and giving digits back never helps since the next
    pattern character is [')']. *)
Definition length_suffix_at (s : string) : option string :=
  match s with
  | String c r =>
      if Ascii.eqb c "(" then
        let ds := take_while is_digit r in
        match ds, drop_while is_digit r with
        | String _ _, String d tl =>
            if Ascii.eqb d ")" && at_dollar tl
            then Some ("(" ++ ds ++ ")")
            else None
        | _, _ => None
        end
      else None
  | EmptyString => None
  end.

(** [re.search(r"\(\d+\)$", s)]: the leftmost position with a match. *)
Fixpoint length_suffix_search (s : string) : option string :=
  match length_suffix_at s with
  | Some m => Some m
  | None =>
      match s with
      | EmptyString => None
      | String _ r => length_suffix_search r
      end
  end.

End Re.

(* ================================================================== *)
(** ** Exceptions *)

(** The exceptions of the program: [ValueError] with its message,
    [mysql.connector.Error], [sqlite3.Error], and the [OverflowError] of
    [fetchmany] on a size that does not fit a C int. *)
Inductive exn : Type :=
| ValueError (msg : string)
| MySQLError
| SQLiteError
| OverflowError.

Inductive result (A : Type) : Type :=
| Ok (a : A)
| Raise (e : exn).
Arguments Ok {A} a.
Arguments Raise {A} e.

Definition rbind {A B : Type} (r : result A) (k : A -> result B) : result B :=
  match r with
  | Ok a => k a
  | Raise e => Raise e
  end.

Declare Scope result_scope.
Delimit Scope result_scope with result.
Notation "x <- r ;; k" := (rbind r (fun x => k))
  (at level 61, r at next level, right associativity) : result_scope.

(** The error of the translator on a declaration without a leading token. *)
Definition invalid_column_type : exn := ValueError "Invalid column_type!".

(* ================================================================== *)
(** ** The type translator *)

(** [_valid_column_type] *)
Definition _valid_column_type (column_type : string) : option string :=
  Re.COLUMN_PATTERN_match (strip column_type).

(** [_column_type_length]; [default] is [None] or an integer, and [0] is
    falsy. *)
Definition _column_type_length (column_type : string) (default : option N)
  : string :=
  match Re.length_suffix_search column_type with
  | Some suffix => suffix
  | None =>
      match default with
      | Some d => if (d =? 0)%N then "" else "(" ++ str_of_N d ++ ")"
      | None => ""
      end
  end.

(** [_translate_type_from_sqlite_to_mysql] *)
Definition _translate_type_from_sqlite_to_mysql (column_type : string)
  : result string :=
  let full_column_type := upper column_type in
  match _valid_column_type column_type with
  | None => Raise invalid_column_type
  | Some m =>
      let data_type := upper m in
      if mem data_type ["TEXT"; "CLOB"] then
        Ok "TEXT"
      else if mem data_type ["CHARACTER"; "NCHAR"; "NATIVE CHARACTER"] then
        Ok ("CHAR" ++ _column_type_length column_type None)
      else if mem data_type ["VARYING CHARACTER"; "NVARCHAR"; "VARCHAR"] then
        Ok ("VARCHAR" ++ _column_type_length column_type (Some 255%N))
      else if String.eqb data_type "DOUBLE PRECISION" then
        Ok "DOUBLE"
      else if String.eqb data_type "UNSIGNED BIG INT" then
        Ok ("BIGINT" ++ _column_type_length column_type None ++ " UNSIGNED")
      else if mem data_type ["INT1"; "INT2"] then
        Ok "INT"
      else
        Ok full_column_type
  end.

Notation "'translate'" := _translate_type_from_sqlite_to_mysql.

(* ================================================================== *)
(** ** The source database and the destination *)

(** A row of [PRAGMA table_info]: the fields the program reads.  [notnull]
    and [pk] are SQLite integers, used for their truth value. *)
Record column : Type := {
  name : string;
  type : string;
  notnull : Z;
  pk : Z
}.

Definition truthy (z : Z) : bool := negb (z =? 0)%Z.

(** A value of a data row, by SQLite storage class; a REAL is kept as the
    bits of its IEEE 754 double. *)
Inductive value : Type :=
| VNull
| VInteger (z : Z)
| VReal (bits : Z)
| VText (s : string)
| VBlob (bytes : list ascii).

Definition row : Type := list value.

(** The answer to [SELECT *]: the column names of the cursor's
    [description], and the rows the cursor delivers. *)
Record result_set : Type := {
  description : list string;
  records : list row
}.

(** What the program reads from the SQLite file: the result of the catalog
    query of [transfer] (the table names, in catalog order), and for a
    table name the answers to [PRAGMA table_info], to the count query and
    to [SELECT *].  An answer is [None] when SQLite raises on the query, as
    it does when the table name, pasted between double quotes into the
    text of the query, breaks it.  The three answers are independent: the
    names of the [description] need not be those of the PRAGMA (a
    generated column is in the first and not in the second), and the count
    is what the count query answers. *)
Record sqlite_db : Type := {
  table_names : list string;
  table_info : string -> option (list column);
  count_rows : string -> option Z;
  select_all : string -> option result_set
}.

(** A call on the MySQL cursor or connection. *)
Inductive call : Type :=
| Execute (sql : string)
| ExecuteMany (sql : string) (rows : list row)
| Commit.

(** The state the methods work on: the rows the SQLite cursor has still to
    deliver, and the calls issued to MySQL so far. *)
Record world : Type := {
  sqlite_cur : list row;
  mysql_calls : list call
}.

Definition M (A : Type) : Type := world -> result A * world.

Definition ret {A : Type} (a : A) : M A := fun w => (Ok a, w).

Definition raise {A : Type} (e : exn) : M A := fun w => (Raise e, w).

Definition bind {A B : Type} (m : M A) (k : A -> M B) : M B :=
  fun w =>
    match m w with
    | (Ok a, w') => k a w'
    | (Raise e, w') => (Raise e, w')
    end.

(** [try: m  except mysql.connector.Error as err: h err] *)
Definition catch_mysql {A : Type} (m : M A) (h : exn -> M A) : M A :=
  fun w =>
    match m w with
    | (Raise MySQLError, w') => h MySQLError w'
    | r => r
    end.

Definition lift {A : Type} (r : result A) : M A := fun w => (r, w).

Declare Scope monad_scope.
Delimit Scope monad_scope with monad.
Notation "x <- m ;; k" := (bind m (fun x => k))
  (at level 61, m at next level, right associativity) : monad_scope.
Notation "m ;; k" := (bind m (fun _ => k))
  (at level 61, right associativity) : monad_scope.

(** The SQLite cursor: [execute] replaces the pending result set, and
    when SQLite raises on the query nothing is pending.  Only the rows of
    [SELECT *] are fetched piecemeal; the answers of the PRAGMA and of the
    count are read whole at once ([fetchall], [fetchone]) and leave nothing
    pending. *)
Definition sqlite_query {A : Type} (answer : option A) : M A :=
  fun w =>
    (match answer with
     | Some a => Ok a
     | None => Raise SQLiteError
     end,
     {| sqlite_cur := []; mysql_calls := mysql_calls w |}).

(** [execute] of [SELECT *], and the names of the [description]. *)
Definition sqlite_select (answer : option result_set) : M (list string) :=
  fun w =>
    match answer with
    | Some r =>
        (Ok (description r),
         {| sqlite_cur := records r; mysql_calls := mysql_calls w |})
    | None =>
        (Raise SQLiteError,
         {| sqlite_cur := []; mysql_calls := mysql_calls w |})
    end.

(** The largest size [fetchmany] accepts: its argument is converted to a
    C int. *)
Definition INT_MAX : Z := (2 ^ 31 - 1)%Z.

(** [fetchmany(size)] for a positive size, the only ones the program
    passes: beyond [INT_MAX] the conversion fails with [OverflowError] and
    the cursor is left as it was. *)
Definition fetchmany (size : Z) : M (list row) :=
  fun w =>
    if (INT_MAX <? size)%Z then (Raise OverflowError, w)
    else (Ok (firstn (Z.to_nat size) (sqlite_cur w)),
          {| sqlite_cur := skipn (Z.to_nat size) (sqlite_cur w);
             mysql_calls := mysql_calls w |}).

(** [fetchall()] *)
Definition fetchall : M (list row) :=
  fun w => (Ok (sqlite_cur w),
            {| sqlite_cur := []; mysql_calls := mysql_calls w |}).

(** [ceil(a / b)] for [|a| < 2^53] and [0 < b <= INT_MAX].  Python
    rounds the quotient to a double before it takes the ceiling; with these
    bounds the rounding error is below [1 / b], the double lies on the same
    side of every integer as the quotient, and the result is the ceiling of
    the exact quotient, which is what is computed here.  Outside the bounds
    the two differ (from [a = 2^53] on the double may be an integer above
    or below the quotient, and for a [b] beyond the range of the doubles it
    is zero); the properties of the chunked transfer assume the bounds. *)
Definition ceil_div (a b : Z) : Z := (- ((- a) / b))%Z.

(* ================================================================== *)
(** ** Building the CREATE TABLE statement *)

(** The [auto_increment=] argument of the column's format call. *)
Definition auto_increment_of (c : column) : result string :=
  if truthy (pk c) then
    (ty <- translate (type c) ;;
     Ok (if mem ty ["INT"; "BIGINT"] then "AUTO_INCREMENT" else ""))%result
  else Ok "".

(** The [notnull=] argument. *)
Definition notnull_of (c : column) : string :=
  if truthy (notnull c) then "NOT NULL" else "NULL".

(** The format string [" `{name}` {type} {notnull} {auto_increment}, "]
    with its four fields filled in. *)
Definition column_format (name type notnull auto_increment : string) : string :=
  " `" ++ name ++ "` " ++ type ++ " " ++ notnull ++ " " ++ auto_increment
  ++ ", ".

(** The text the loop appends for one row: the arguments of the format
    call are evaluated in the order they are written. *)
Definition column_sql (c : column) : result string :=
  (ty <- translate (type c) ;;
   let nn := notnull_of c in
   ai <- auto_increment_of c ;;
   Ok (column_format (name c) ty nn ai))%result.

(** The loop of [_create_table] over the rows of [PRAGMA table_info], on
    the variables [sql] and [primary_key]. *)
Fixpoint create_table_loop (rows : list column) (sql primary_key : string)
  : result (string * string) :=
  match rows with
  | [] => Ok (sql, primary_key)
  | c :: rest =>
      (frag <- column_sql c ;;
       create_table_loop rest (sql ++ frag)
         (if truthy (pk c) then name c else primary_key))%result
  end.

Definition create_table_head (table_name : string) : string :=
  "CREATE TABLE IF NOT EXISTS `" ++ table_name ++ "` ( ".

Definition create_table_tail : string :=
  " ) ENGINE = InnoDB CHARACTER SET utf8".

(** What [if primary_key: sql += ...] appends. *)
Definition primary_key_clause (primary_key : string) : string :=
  if is_empty primary_key then ""
  else ", PRIMARY KEY (`" ++ primary_key ++ "`)".

(** The statement [_create_table] hands to MySQL. *)
Definition create_table_sql (table_name : string) (rows : list column)
  : result string :=
  (r <- create_table_loop rows (create_table_head table_name) "" ;;
   let sql := rstrip_chars ", " (fst r) in
   let sql := sql ++ primary_key_clause (snd r) in
   let sql := sql ++ create_table_tail in
   Ok (join " " (split sql)))%result.

(** [s * n] *)
Fixpoint repeat_str (s : string) (n : nat) : string :=
  match n with
  | O => ""
  | S n' => s ++ repeat_str s n'
  end.

(** [template.format( *args )] for a template whose fields are all the
    empty braces; the program gives it one argument per field. *)
Fixpoint format_args (template : string) (args : list string) : string :=
  match template with
  | String "{" (String "}" r) =>
      match args with
      | a :: args' => a ++ format_args r args'
      | [] => format_args r []
      end
  | String c r => String c (format_args r args)
  | EmptyString => ""
  end.

(** The statement of [transfer] for the rows of a table; [columns] are the
    names in the cursor's [description]. *)
Definition insert_sql (table_name : string) (columns : list string) : string :=
  let n := List.length columns in
  let fields := format_args (rstrip_chars " ," (repeat_str "`{}`, " n)) columns in
  let placeholders := rstrip_chars " ," (repeat_str "%s, " n) in
  "INSERT IGNORE INTO `" ++ table_name ++ "` (" ++ fields ++ ") VALUES ("
  ++ placeholders ++ ")".

(* ================================================================== *)
(** ** The transfer pipeline *)

Section Pipeline.

(** The SQLite file. *)
Variable db : sqlite_db.

(** The configured chunk size, [None] or an integer. *)
Variable chunk_size : option Z.

(** Whether MySQL raises on the last of the calls issued so far. *)
Variable mysql_raises : list call -> bool.

Definition mysql_call (c : call) : M unit :=
  fun w =>
    let calls := (mysql_calls w ++ [c])%list in
    let w' := {| sqlite_cur := sqlite_cur w; mysql_calls := calls |} in
    if mysql_raises calls then (Raise MySQLError, w') else (Ok tt, w').

(** [_create_table] *)
Definition _create_table (table_name : string) : M unit :=
  (rows <- sqlite_query (table_info db table_name) ;;
   sql <- lift (create_table_sql table_name rows) ;;
   catch_mysql
     (mysql_call (Execute sql) ;; mysql_call Commit)
     (fun err => raise err))%monad.

(** The loop of the chunked branch: [n] rounds of fetch, insert, commit. *)
Fixpoint chunk_loop (n : nat) (sql : string) (size : Z) : M unit :=
  match n with
  | O => ret tt
  | S n' =>
      (rows <- fetchmany size ;;
       mysql_call (ExecuteMany sql rows) ;;
       mysql_call Commit ;;
       chunk_loop n' sql size)%monad
  end.

(** [_transfer_table_data]; the number of rounds of the chunked branch is
    [ceil_div], the source's [ceil(total_records / self._chunk_size)] in
    the range given there. *)
Definition _transfer_table_data (sql : string) (total_records : Z) : M unit :=
  match chunk_size with
  | Some size =>
      if (0 <? size)%Z then
        chunk_loop (Z.to_nat (ceil_div total_records size)) sql size
      else
        (rows <- fetchall ;;
         mysql_call (ExecuteMany sql rows) ;;
         mysql_call Commit)%monad
  | None =>
      (rows <- fetchall ;;
       mysql_call (ExecuteMany sql rows) ;;
       mysql_call Commit)%monad
  end.

(** The body of the loop of [transfer] for one table. *)
Definition transfer_table (table_name : string) : M unit :=
  (_create_table table_name ;;
   total_records <- sqlite_query (count_rows db table_name) ;;
   if (0 <? total_records)%Z then
     (columns <- sqlite_select (select_all db table_name) ;;
      let sql := insert_sql table_name columns in
      catch_mysql
        (_transfer_table_data sql total_records)
        (fun err => raise err))%monad
   else ret tt)%monad.

Fixpoint transfer_tables (tables : list string) : M unit :=
  match tables with
  | [] => ret tt
  | t :: rest => (transfer_table t ;; transfer_tables rest)%monad
  end.

(** [transfer], from the answer of the catalog query on. *)
Definition transfer : M unit := transfer_tables (table_names db).

End Pipeline.

(* ================================================================== *)
(** ** Vocabulary of the properties *)

(** Every character of [s] satisfies [p]. *)
Fixpoint all_chars (p : ascii -> bool) (s : string) : bool :=
  match s with
  | EmptyString => true
  | String c r => p c && all_chars p r
  end.

(** The characters of the 7-bit ASCII range, and the strings made of
    them: the [str] values on which the string operations of the model are
    those of Python. *)
Definition is_ascii (c : ascii) : bool := (nat_of_ascii c <? 128)%nat.

Definition ascii_text (s : string) : bool := all_chars is_ascii s.

(** The last character of a string. *)
Fixpoint last_char (s : string) : option ascii :=
  match s with
  | EmptyString => None
  | String c EmptyString => Some c
  | String _ r => last_char r
  end.


(** The declaration has no leading type-name token: stripped of the
    surrounding whitespace it is empty or begins with ['(']. *)
Definition no_leading_token (s : string) : bool :=
  match strip s with
  | EmptyString => true
  | String c _ => Ascii.eqb c "("
  end.

(** A non-empty run of decimal digits. *)
Definition digit_run (ds : string) : Prop :=
  ds <> "" /\ all_chars is_digit ds = true.

(** The words of the specification: [s] ends with [m], a parenthesized
    run of digits. *)
Definition ends_with_length (s m : string) : Prop :=
  exists p ds, digit_run ds /\ m = "(" ++ ds ++ ")" /\ s = p ++ m.

(** What the search of [_column_type_length] accepts: as above, and one
    newline may follow [m] at the very end. *)
Definition recognized_length (s m : string) : Prop :=
  exists p ds, digit_run ds /\ m = "(" ++ ds ++ ")" /\
    (s = p ++ m \/ s = p ++ m ++ String Re.newline "").

(** The column's declared type has a translation. *)
Definition translatable (c : column) : bool :=
  match translate (type c) with
  | Ok _ => true
  | Raise _ => false
  end.

(** The text of a translatable column in the statement. *)
Definition frag_of (c : column) : string :=
  match translate (type c) with
  | Ok ty =>
      column_format (name c) ty (notnull_of c)
        (if truthy (pk c) && mem ty ["INT"; "BIGINT"]
         then "AUTO_INCREMENT" else "")
  | Raise _ => ""
  end.

Definition frags (rows : list column) : string :=
  join "" (map frag_of rows).

(** The name of the last column with the primary-key flag, [init] when
    there is none. *)
Fixpoint last_pk (rows : list column) (init : string) : string :=
  match rows with
  | [] => init
  | c :: rest => last_pk rest (if truthy (pk c) then name c else init)
  end.

(** The word [w] occurs neither in the table name, nor in a column name,
    nor in a translated type. *)
Definition text_free (w table_name : string) (rows : list column) : Prop :=
  contains w table_name = false /\
  Forall (fun c => contains w (name c) = false /\
                   forall ty, translate (type c) = Ok ty ->
                              contains w ty = false) rows.

(** A non-empty word without the characters that separate the parts of the
    statement, and that occurs in none of its fixed texts. *)
Definition plain_word (w : string) : bool :=
  negb (contains w "") &&
  negb (char_in " " w) && negb (char_in "`" w) && negb (char_in "," w) &&
  negb (contains w "CREATE TABLE IF NOT EXISTS ") &&
  negb (contains w " ( ") &&
  negb (contains w "NULL") && negb (contains w "NOT NULL") &&
  negb (contains w ") ENGINE = InnoDB CHARACTER SET utf8").

(** The leading tokens the translator has a rule for. *)
Definition classified (data_type : string) : bool :=
  mem data_type
    ["TEXT"; "CLOB"; "CHARACTER"; "NCHAR"; "NATIVE CHARACTER";
     "VARYING CHARACTER"; "NVARCHAR"; "VARCHAR"; "DOUBLE PRECISION";
     "UNSIGNED BIG INT"; "INT1"; "INT2"].

(** The batches of the chunked transfer: [n] times the next [size] rows. *)
Fixpoint chunks (n size : nat) (rows : list row) : list (list row) :=
  match n with
  | O => []
  | S n' => firstn size rows :: chunks n' size (skipn size rows)
  end.

(** The calls of one batch: the multi-row insert, then the commit. *)
Definition batch_calls (sql : string) (batch : list row) : list call :=
  [ExecuteMany sql batch; Commit].

(** The call is a multi-row insert. *)
Definition is_data_call (c : call) : bool :=
  match c with
  | ExecuteMany _ _ => true
  | _ => false
  end.

(** The world once the cursor has nothing pending. *)
Definition cleared (w : world) : world :=
  {| sqlite_cur := []; mysql_calls := mysql_calls w |}.

(* ================================================================== *)
(** ** Sample inputs of the examples *)

Definition title_column : column :=
  {| name := "title"; type := "varchar"; notnull := 0; pk := 0 |}.

Definition id_int_column : column :=
  {| name := "id"; type := "int"; notnull := 1; pk := 1 |}.

Definition id_integer_column : column :=
  {| name := "id"; type := "INTEGER"; notnull := 1; pk := 1 |}.

Definition id_text_column : column :=
  {| name := "id"; type := "TEXT"; notnull := 1; pk := 1 |}.

Definition a_int_column : column :=
  {| name := "a"; type := "INT"; notnull := 0; pk := 1 |}.

Definition b_int_column : column :=
  {| name := "b"; type := "INT"; notnull := 0; pk := 2 |}.

(** A column whose name is the empty identifier. *)
Definition unnamed_int_column : column :=
  {| name := ""; type := "INT"; notnull := 0; pk := 2 |}.

Definition three_rows : list row :=
  [[VInteger 1; VText "a"]; [VInteger 2; VText "b"]; [VInteger 3; VNull]].

(** A MySQL server that raises on no call. *)
Definition mysql_accepts : list call -> bool := fun _ => false.

(** A column declared without a type. *)
Definition untyped_column : column :=
  {| name := "x"; type := ""; notnull := 0; pk := 0 |}.

Definition sample_db : sqlite_db :=
  {| table_names := ["good"; "bad"; "later"];
     table_info := fun t =>
       Some (if String.eqb t "good" then [id_int_column; title_column]
             else if String.eqb t "bad" then [title_column; untyped_column]
             else [title_column]);
     count_rows := fun t =>
       Some (if String.eqb t "good" then 3%Z
             else if String.eqb t "bad" then 3%Z
             else 0%Z);
     select_all := fun t =>
       Some (if String.eqb t "good"
             then {| description := ["id"; "title"]; records := three_rows |}
             else if String.eqb t "bad"
             then {| description := ["title"; "x"]; records := three_rows |}
             else {| description := ["title"]; records := [] |}) |}.

Definition start : world := {| sqlite_cur := []; mysql_calls := [] |}.

(** The calls of the transfer of the table [good] of [sample_db]. *)
Definition good_calls : list call :=
  [Execute "CREATE TABLE IF NOT EXISTS `good` ( `id` INT NOT NULL AUTO_INCREMENT, `title` VARCHAR(255) NULL, PRIMARY KEY (`id`) ) ENGINE = InnoDB CHARACTER SET utf8";
   Commit;
   ExecuteMany "INSERT IGNORE INTO `good` (`id`, `title`) VALUES (%s, %s)"
     three_rows;
   Commit].

(* ================================================================== *)
(** ** Vocabulary of the further properties *)

(** The length suffixes the translator writes: nothing, or a
    parenthesized run of digits. *)
Definition length_shape (suf : string) : Prop :=
  suf = "" \/ exists ds, digit_run ds /\ suf = "(" ++ ds ++ ")".

(** The forms of a translation of the declaration [s]: one of the fixed
    types, a classified type with the suffix the length logic gives, or the
    upper-cased declaration of an unclassified type. *)
Inductive translated_form (s : string) : string -> Prop :=
| form_text : translated_form s "TEXT"
| form_char (suf : string) :
    length_shape suf -> translated_form s ("CHAR" ++ suf)
| form_varchar (ds : string) :
    digit_run ds -> translated_form s ("VARCHAR(" ++ ds ++ ")")
| form_double : translated_form s "DOUBLE"
| form_bigint (suf : string) :
    length_shape suf -> translated_form s ("BIGINT" ++ suf ++ " UNSIGNED")
| form_int : translated_form s "INT"
| form_same (m : string) :
    _valid_column_type s = Some m -> classified (upper m) = false ->
    translated_form s (upper s).

(** A word: a non-empty string without whitespace. *)
Definition word (t : string) : Prop :=
  t <> "" /\ all_chars (fun c => negb (is_space c)) t = true.

(** Each column name in backquotes, as the INSERT statement lists them. *)
Definition backquoted (c : string) : string := "`" ++ c ++ "`".

(** MySQL given the calls [pending] one after the other, up to the first
    one it raises on: the outcome and the calls issued. *)
Fixpoint issue (mysql_raises : list call -> bool) (calls pending : list call)
  : result unit * list call :=
  match pending with
  | [] => (Ok tt, calls)
  | c :: rest =>
      if mysql_raises (calls ++ [c])%list
      then (Raise MySQLError, (calls ++ [c])%list)
      else issue mysql_raises (calls ++ [c])%list rest
  end.

(** The rows handed to MySQL by the multi-row inserts among [calls], in
    the order of the calls. *)
Fixpoint inserted_rows (calls : list call) : list row :=
  match calls with
  | [] => []
  | ExecuteMany _ rows :: rest => (rows ++ inserted_rows rest)%list
  | _ :: rest => inserted_rows rest
  end.

(** A MySQL server that raises on the third call it receives. *)
Definition mysql_fails_third : list call -> bool :=
  fun calls => (List.length calls =? 3)%nat.

(** A MySQL server that raises on the first call it receives. *)
Definition mysql_fails_first : list call -> bool :=
  fun calls => (List.length calls =? 1)%nat.

(** The calls of the data transfer of a table with the rows [rows]: none
    for a table without rows, the calls of the batches in chunked mode, one
    insert and one commit otherwise. *)
Definition data_calls (chunk_size : option Z) (sql : string) (rows : list row)
  : list call :=
  match rows with
  | [] => []
  | _ :: _ =>
      match chunk_size with
      | Some size =>
          if (0 <? size)%Z then
            flat_map (batch_calls sql)
              (chunks (Z.to_nat (ceil_div (Z.of_nat (List.length rows)) size))
                 (Z.to_nat size) rows)
          else [ExecuteMany sql rows; Commit]
      | None => [ExecuteMany sql rows; Commit]
      end
  end.

(** The calls of the transfer of a table when nothing fails: [cols] is
    the answer of the PRAGMA and [r] the answer to [SELECT *]. *)
Definition calls_of (chunk_size : option Z) (t : string) (cols : list column)
           (r : result_set) : list call :=
  match create_table_sql t cols with
  | Ok ddl =>
      ([Execute ddl; Commit]
       ++ data_calls chunk_size (insert_sql t (description r)) (records r))%list
  | Raise _ => []
  end.

(** The same for the table [t] of a database that answers both queries. *)
Definition table_calls (db : sqlite_db) (chunk_size : option Z) (t : string)
  : list call :=
  match table_info db t, select_all db t with
  | Some cols, Some r => calls_of chunk_size t cols r
  | _, _ => []
  end.

(** The rows of the table [t]. *)
Definition table_rows (db : sqlite_db) (t : string) : list row :=
  match select_all db t with
  | Some r => records r
  | None => []
  end.

(** SQLite answers the three queries on the table [t], and the count is
    the number of rows [SELECT *] delivers, fewer than 2^53: the file is
    not written to during the run. *)
Definition answers (db : sqlite_db) (t : string) : Prop :=
  exists cols r,
    table_info db t = Some cols /\
    select_all db t = Some r /\
    count_rows db t = Some (Z.of_nat (List.length (records r))) /\
    (Z.of_nat (List.length (records r)) < 2 ^ 53)%Z.

(** The name of the table [t], the names of its columns and their
    declared types are ASCII text, and every declared type has a leading
    token. *)
Definition well_typed (db : sqlite_db) (t : string) : Prop :=
  ascii_text t = true /\
  forall cols,
    table_info db t = Some cols ->
    Forall (fun c => ascii_text (name c) = true /\
                     ascii_text (type c) = true /\
                     no_leading_token (type c) = false) cols.

(** The chunk size, when there is one, is one [fetchmany] accepts. *)
Definition fetchable (chunk_size : option Z) : Prop :=
  forall size, chunk_size = Some size -> (size <= INT_MAX)%Z.

(** The sample database without the table that cannot be created. *)
Definition sound_db : sqlite_db :=
  {| table_names := ["good"; "later"];
     table_info := table_info sample_db;
     count_rows := count_rows sample_db;
     select_all := select_all sample_db |}.

(* ================================================================== *)
(** ** The arguments of the constructor *)

(** The keyword arguments [__init__] reads before it opens the
    connections.  [None] is a key that is absent or has the value [None];
    the command line gives strings for the texts and integers for the port
    and the chunk size. *)
Record kwargs : Type := {
  kw_sqlite_file : option string;
  kw_mysql_user : option string;
  kw_mysql_password : option string;
  kw_mysql_host : option string;
  kw_mysql_port : option Z;
  kw_chunk : option Z
}.

(** The attributes set from them. *)
Record settings : Type := {
  _sqlite_file : string;
  _mysql_user : string;
  _mysql_password : option string;
  _mysql_host : string;
  _mysql_port : Z;
  _chunk_size : option Z
}.

Inductive init_exn : Type :=
| InitValueError (msg : string)
| InitFileNotFoundError (msg : string).

(** [x or None] for a string: the empty string is falsy. *)
Definition str_or_none (x : option string) : option string :=
  match x with
  | Some s => if is_empty s then None else Some s
  | None => None
  end.

(** [x or None] for an integer: zero is falsy. *)
Definition int_or_none (x : option Z) : option Z :=
  match x with
  | Some z => if (z =? 0)%Z then None else Some z
  | None => None
  end.

(** The argument handling of [__init__], in the order of the source:
    the SQLite file, the user, the password, the host, the port and the
    chunk size; [isfile] is [os.path.isfile].  The database name and the
    two default types, which only take a default, the logger and the
    connections that [__init__] opens afterwards are not part of it. *)
Definition init_settings (isfile : string -> bool) (kw : kwargs)
  : init_exn + settings :=
  match str_or_none (kw_sqlite_file kw) with
  | None => inl (InitValueError "Please provide an SQLite file")
  | Some file =>
      if negb (isfile file)
      then inl (InitFileNotFoundError "SQLite file does not exist")
      else
        match str_or_none (kw_mysql_user kw) with
        | None => inl (InitValueError "Please provide a MySQL user")
        | Some user =>
            inr {| _sqlite_file := file;
                   _mysql_user := user;
                   _mysql_password := str_or_none (kw_mysql_password kw);
                   _mysql_host :=
                     match str_or_none (kw_mysql_host kw) with
                     | Some h => h
                     | None => "localhost"
                     end;
                   _mysql_port :=
                     match int_or_none (kw_mysql_port kw) with
                     | Some p => p
                     | None => 3306%Z
                     end;
                   _chunk_size := int_or_none (kw_chunk kw) |}
        end
  end.

(** Sample arguments: a chunk size of zero, as [--chunk 0] gives. *)
Definition sample_kwargs : kwargs :=
  {| kw_sqlite_file := Some "db.sqlite3";
     kw_mysql_user := Some "root";
     kw_mysql_password := None;
     kw_mysql_host := None;
     kw_mysql_port := Some 0%Z;
     kw_chunk := Some 0%Z |}.

Definition every_file : string -> bool := fun _ => true.

(* ================================================================== *)
(** ** Lemmas on strings *)

Section StringFacts.

Lemma append_nil_r (s : string) : s ++ "" = s.
Proof. induction s as [|c s IH]; simpl; [reflexivity | now rewrite IH]. Qed.

Lemma append_assoc (a b c : string) : (a ++ b) ++ c = a ++ b ++ c.
Proof. induction a as [|x a IH]; simpl; [reflexivity | now rewrite IH]. Qed.

Lemma append_eq_nil (a b : string) : a ++ b = "" -> a = "" /\ b = "".
Proof. destruct a; simpl; [auto | discriminate]. Qed.

Lemma take_drop_while (p : ascii -> bool) (s : string) :
  take_while p s ++ drop_while p s = s.
Proof.
  induction s as [|c s IH]; simpl; [reflexivity|].
  destruct (p c); simpl; [now rewrite IH | reflexivity].
Qed.

Lemma take_while_all (p : ascii -> bool) (s : string) :
  all_chars p (take_while p s) = true.
Proof.
  induction s as [|c s IH]; simpl; [reflexivity|].
  destruct (p c) eqn:E; simpl; [now rewrite E | reflexivity].
Qed.

Lemma take_while_stop (p : ascii -> bool) (a : string) (c : ascii) (b : string) :
  all_chars p a = true -> p c = false ->
  take_while p (a ++ String c b) = a.
Proof.
  intros Ha Hc. induction a as [|x a IH]; simpl in *.
  - now rewrite Hc.
  - apply andb_true_iff in Ha as [Hx Ha]. rewrite Hx. now rewrite IH.
Qed.

Lemma drop_while_stop (p : ascii -> bool) (a : string) (c : ascii) (b : string) :
  all_chars p a = true -> p c = false ->
  drop_while p (a ++ String c b) = String c b.
Proof.
  intros Ha Hc. induction a as [|x a IH]; simpl in *.
  - now rewrite Hc.
  - apply andb_true_iff in Ha as [Hx Ha]. rewrite Hx. now apply IH.
Qed.

Lemma drop_while_app (p : ascii -> bool) (a b : string) :
  drop_while p a <> "" -> drop_while p (a ++ b) = drop_while p a ++ b.
Proof.
  induction a as [|x a IH]; simpl; intros H; [congruence|].
  destruct (p x); [now apply IH | reflexivity].
Qed.

Lemma all_chars_app (p : ascii -> bool) (a b : string) :
  all_chars p (a ++ b) = all_chars p a && all_chars p b.
Proof.
  induction a as [|x a IH]; simpl; [reflexivity|].
  now rewrite IH, andb_assoc.
Qed.

Lemma all_chars_drop_while (p q : ascii -> bool) (s : string) :
  all_chars q s = true -> all_chars q (drop_while p s) = true.
Proof.
  induction s as [|c s IH]; simpl; [auto|].
  intros H. apply andb_true_iff in H as [Hc Hs].
  destruct (p c); simpl; [auto | now rewrite Hc, Hs].
Qed.

(** [rstrip] keeps a character that is not stripped, and everything
    before a part that is not stripped away entirely. *)
Lemma rstrip_by_keep (p : ascii -> bool) (c : ascii) (s : string) :
  p c = false -> rstrip_by p (String c s) = String c (rstrip_by p s).
Proof. intros H. simpl. destruct (rstrip_by p s); [now rewrite H | reflexivity]. Qed.

Lemma rstrip_by_app (p : ascii -> bool) (a b : string) :
  rstrip_by p b <> "" -> rstrip_by p (a ++ b) = a ++ rstrip_by p b.
Proof.
  intros H. induction a as [|x a IH]; simpl; [reflexivity|].
  rewrite IH. destruct (a ++ rstrip_by p b) eqn:E; [|reflexivity].
  apply append_eq_nil in E as [_ E]. congruence.
Qed.

(** What [rstrip] removes is a run of stripped characters. *)
Lemma rstrip_by_split (p : ascii -> bool) (s : string) :
  exists z, s = rstrip_by p s ++ z /\ all_chars p z = true.
Proof.
  induction s as [|c s [z [Hs Hz]]]; simpl.
  - exists "". split; reflexivity.
  - destruct (rstrip_by p s) eqn:E.
    + destruct (p c) eqn:Hc.
      * exists (String c s). split; [reflexivity|].
        simpl in Hs. simpl. rewrite Hc, Hs. exact Hz.
      * exists z. split; [simpl in *; congruence | exact Hz].
    + exists z. split; [simpl in *; congruence | exact Hz].
Qed.

Lemma is_space_upper_char (c : ascii) : is_space (upper_char c) = is_space c.
Proof.
  destruct c as [[] [] [] [] [] [] [] []]; reflexivity.
Qed.




End StringFacts.

(** The string operations on the texts of the program. *)
Example pystr_examples :
  strip "  varchar (10)  " = "varchar (10)" /\
  upper "Unsigned big int(20)" = "UNSIGNED BIG INT(20)" /\
  rstrip_chars ", " "`a` INT NULL , " = "`a` INT NULL" /\
  split "  CREATE   TABLE  t " = ["CREATE"; "TABLE"; "t"] /\
  join " " ["CREATE"; "TABLE"; "t"] = "CREATE TABLE t" /\
  contains "KEY" "PRIMARY KEY (`id`)" = true /\
  contains "key" "PRIMARY KEY (`id`)" = false /\
  Re.COLUMN_PATTERN_match "NATIVE CHARACTER(70)" = Some "NATIVE CHARACTER" /\
  Re.COLUMN_PATTERN_match "(70)" = None /\
  Re.length_suffix_search "DECIMAL(10,2)" = None /\
  Re.length_suffix_search "NUMERIC(10)" = Some "(10)" /\
  Re.length_suffix_search "A(1)(22)" = Some "(22)" /\
  str_of_N 255 = "255".
Proof. repeat split. Qed.

(* ================================================================== *)
(** ** The type translator: properties *)

Section Translator.

Lemma valid_column_type_none (s : string) :
  _valid_column_type s = None <-> no_leading_token s = true.
Proof.
  unfold _valid_column_type, Re.COLUMN_PATTERN_match, no_leading_token.
  destruct (strip s) as [|c r]; simpl; [tauto|].
  unfold Re.not_lparen. destruct (Ascii.eqb c "("); simpl; split; congruence.
Qed.

Lemma translate_of_valid (s m : string) :
  _valid_column_type s = Some m ->
  exists t, _translate_type_from_sqlite_to_mysql s = Ok t.
Proof.
  intros H. unfold _translate_type_from_sqlite_to_mysql. rewrite H.
  repeat match goal with
         | |- context [if ?b then _ else _] => destruct b
         end; eauto.
Qed.

Lemma translate_of_invalid (s : string) :
  _valid_column_type s = None ->
  _translate_type_from_sqlite_to_mysql s = Raise invalid_column_type.
Proof.
  intros H. unfold _translate_type_from_sqlite_to_mysql. now rewrite H.
Qed.

(** The only error of the translator. *)
Lemma translate_raise (s : string) (e : exn) :
  _translate_type_from_sqlite_to_mysql s = Raise e -> e = invalid_column_type.
Proof.
  destruct (_valid_column_type s) as [m|] eqn:V.
  - destruct (translate_of_valid s m V) as [t Ht]. congruence.
  - rewrite (translate_of_invalid s V). congruence.
Qed.

(** An unclassified leading token: the upper-cased declaration. *)
Lemma translate_unclassified (s m : string) :
  _valid_column_type s = Some m -> classified (upper m) = false ->
  _translate_type_from_sqlite_to_mysql s = Ok (upper s).
Proof.
  intros V C. unfold _translate_type_from_sqlite_to_mysql. rewrite V.
  unfold classified, mem in C. simpl in C.
  repeat (apply orb_false_iff in C; destruct C as [?E C]).
  unfold mem. simpl.
  repeat match goal with
         | H : String.eqb (upper m) _ = false |- _ => rewrite H; clear H
         end.
  reflexivity.
Qed.

Lemma space_not_lparen (s : string) :
  all_chars is_space s = true -> all_chars Re.not_lparen s = true.
Proof.
  induction s as [|c s IH]; simpl; [auto|].
  intros H. apply andb_true_iff in H as [Hc Hs]. rewrite (IH Hs), andb_true_r.
  unfold Re.not_lparen. destruct (Ascii.eqb_spec c "("); [subst; discriminate | reflexivity].
Qed.

(** The leading token of a declaration whose name is followed by
    whitespace and a parenthesis. *)
Lemma valid_column_type_spaced (nm ws rest : string) :
  all_chars Re.not_lparen nm = true ->
  drop_while is_space nm <> "" ->
  all_chars is_space ws = true ->
  _valid_column_type (nm ++ ws ++ "(" ++ rest)
  = Some (drop_while is_space nm ++ ws).
Proof.
  intros Hnm Hne Hws.
  unfold _valid_column_type, strip, lstrip_by.
  rewrite (drop_while_app _ _ _ Hne).
  set (dn := drop_while is_space nm) in *.
  rewrite <- append_assoc.
  change ("(" ++ rest) with (String "(" rest).
  rewrite rstrip_by_app
    by (rewrite rstrip_by_keep by reflexivity; discriminate).
  rewrite rstrip_by_keep by reflexivity.
  unfold Re.COLUMN_PATTERN_match.
  rewrite take_while_stop.
  - destruct (dn ++ ws) eqn:E; [|reflexivity].
    apply append_eq_nil in E as [E _]. congruence.
  - rewrite all_chars_app. apply andb_true_iff. split.
    + now apply all_chars_drop_while.
    + now apply space_not_lparen.
  - reflexivity.
Qed.


(** *** The length suffix *)

Lemma digit_not_paren (s : string) :
  all_chars is_digit s = true ->
  all_chars Re.not_lparen s = true.
Proof.
  induction s as [|c s IH]; simpl; [auto|].
  intros H. apply andb_true_iff in H as [Hc Hs]. rewrite (IH Hs), andb_true_r.
  unfold Re.not_lparen. destruct (Ascii.eqb_spec c "("); [subst; discriminate | reflexivity].
Qed.

Lemma at_dollar_spec (tl : string) :
  Re.at_dollar tl = true <-> tl = "" \/ tl = String Re.newline "".
Proof.
  destruct tl as [|c [|d tl]]; simpl.
  - split; auto.
  - rewrite Ascii.eqb_eq. split.
    + intros ->. now right.
    + intros [H|H]; [discriminate | congruence].
  - split; [discriminate|]. intros [H|H]; discriminate.
Qed.

Lemma length_suffix_at_spec (s m : string) :
  Re.length_suffix_at s = Some m <->
  exists ds tl, digit_run ds /\ m = "(" ++ ds ++ ")" /\ s = m ++ tl /\
                Re.at_dollar tl = true.
Proof.
  split.
  - unfold Re.length_suffix_at. destruct s as [|c r]; [discriminate|].
    destruct (Ascii.eqb_spec c "("); [subst c | discriminate].
    pose proof (take_drop_while is_digit r) as TD.
    pose proof (take_while_all is_digit r) as TA.
    destruct (take_while is_digit r) as [|x ds] eqn:T; [discriminate|].
    destruct (drop_while is_digit r) as [|d tl] eqn:D; [discriminate|].
    destruct (Ascii.eqb_spec d ")"); [subst d | discriminate]. simpl.
    destruct (Re.at_dollar tl) eqn:A; [|discriminate].
    intros [= <-]. exists (String x ds), tl.
    repeat split; try assumption; try discriminate.
    simpl. rewrite append_assoc. simpl. simpl in TD. now rewrite TD.
  - intros (ds & tl & [Hne Hd] & -> & -> & A).
    destruct ds as [|x ds]; [congruence|].
    unfold Re.length_suffix_at. simpl append. lazy beta iota.
    rewrite Ascii.eqb_refl.
    replace (String x ((ds ++ ")") ++ tl)) with (String x ds ++ String ")" tl)
      by (simpl; now rewrite append_assoc).
    rewrite take_while_stop, drop_while_stop by easy.
    rewrite Ascii.eqb_refl, A. reflexivity.
Qed.

(** A match of the suffix pattern has one parenthesis, its first
    character. *)
Lemma length_suffix_at_head (c : ascii) (p rest m : string) :
  Re.length_suffix_at (String c (p ++ String "(" rest)) = Some m -> False.
Proof.
  intros H. apply length_suffix_at_spec in H
    as (ds' & tl' & [_ Hd] & -> & E & A).
  simpl in E. injection E as _ E.
  assert (N : all_chars Re.not_lparen (p ++ String "(" rest) = true).
  { rewrite E, append_assoc, !all_chars_app.
    rewrite (digit_not_paren _ Hd). simpl.
    apply at_dollar_spec in A as [-> | ->]; reflexivity. }
  rewrite all_chars_app in N. apply andb_true_iff in N as [_ N].
  discriminate.
Qed.

Lemma length_suffix_search_cons (c : ascii) (s : string) :
  Re.length_suffix_search (String c s)
  = match Re.length_suffix_at (String c s) with
    | Some m => Some m
    | None => Re.length_suffix_search s
    end.
Proof. reflexivity. Qed.

Lemma length_suffix_search_spec (s m : string) :
  Re.length_suffix_search s = Some m <-> recognized_length s m.
Proof.
  unfold recognized_length. split.
  - induction s as [|c s IH].
    + discriminate.
    + rewrite length_suffix_search_cons.
      destruct (Re.length_suffix_at (String c s)) as [m'|] eqn:A.
      * intros [= ->]. apply length_suffix_at_spec in A
          as (ds & tl & D & -> & E & A).
        exists "", ds. repeat split; try apply D.
        apply at_dollar_spec in A as [-> | ->]; simpl.
        -- left. now rewrite E, append_nil_r.
        -- right. exact E.
      * intros H. destruct (IH H) as (p & ds & D & -> & E).
        exists (String c p), ds. repeat split; try apply D.
        destruct E as [-> | ->]; [left | right]; reflexivity.
  - intros (p & ds & D & -> & E).
    assert (A : exists tl, s = p ++ ("(" ++ ds ++ ")") ++ tl /\
                           Re.at_dollar tl = true).
    { destruct E as [-> | ->].
      - exists "". now rewrite append_nil_r.
      - exists (String Re.newline ""). now rewrite append_assoc. }
    clear E. destruct A as (tl & -> & A).
    induction p as [|c p IH].
    + change (Re.length_suffix_search (("(" ++ ds ++ ")") ++ tl)
              = Some ("(" ++ ds ++ ")")).
      assert (H : Re.length_suffix_at (("(" ++ ds ++ ")") ++ tl)
                  = Some ("(" ++ ds ++ ")")).
      { apply length_suffix_at_spec. exists ds, tl. auto. }
      remember (("(" ++ ds ++ ")") ++ tl) as s0 eqn:E.
      destruct s0 as [|a s0]; [discriminate|].
      rewrite length_suffix_search_cons. now rewrite H.
    + simpl (String c p ++ _). rewrite length_suffix_search_cons.
      destruct (Re.length_suffix_at _) as [m'|] eqn:H; [|exact IH].
      exfalso. rewrite append_assoc in H. simpl append in H.
      eapply length_suffix_at_head. exact H.
Qed.

End Translator.

(* ================================================================== *)
(** ** The type translator: the claims *)

(** C2: the translator returns TEXT for TEXT, VARCHAR(100) for
    VARCHAR(100), VARCHAR(255) for VARCHAR, VARCHAR(50) for NVARCHAR(50),
    BIGINT UNSIGNED for UNSIGNED BIG INT, BIGINT(20) UNSIGNED for UNSIGNED BIG
    INT(20), INT for INT1, DOUBLE for DOUBLE PRECISION, and raises the
    invalid-type error on the empty string. *)
Theorem C2_translate_values :
  translate "TEXT" = Ok "TEXT" /\
  translate "VARCHAR(100)" = Ok "VARCHAR(100)" /\
  translate "VARCHAR" = Ok "VARCHAR(255)" /\
  translate "NVARCHAR(50)" = Ok "VARCHAR(50)" /\
  translate "UNSIGNED BIG INT" = Ok "BIGINT UNSIGNED" /\
  translate "UNSIGNED BIG INT(20)" = Ok "BIGINT(20) UNSIGNED" /\
  translate "INT1" = Ok "INT" /\
  translate "DOUBLE PRECISION" = Ok "DOUBLE" /\
  translate "" = Raise invalid_column_type.
Proof. repeat split; vm_compute; reflexivity. Qed.





Lemma last_char_app (a : string) (c : ascii) :
  last_char (a ++ String c "") = Some c.
Proof.
  induction a as [|x a IH]; [reflexivity|].
  simpl. destruct (a ++ String c "") eqn:E; [|exact IH].
  apply append_eq_nil in E as [_ E]. discriminate.
Qed.


(** Without a final newline the search accepts what the specification
    describes, and nothing else. *)
Lemma recognized_length_no_newline (s m : string) :
  last_char s <> Some Re.newline ->
  (recognized_length s m <-> ends_with_length s m).
Proof.
  intros L. split.
  - intros (p & ds & D & -> & [E | E]).
    + exists p, ds. auto.
    + exfalso. apply L. rewrite E, <- !append_assoc. apply last_char_app.
  - intros (p & ds & D & -> & E). exists p, ds. auto.
Qed.

Lemma column_type_length_recognized (s m : string) (d : option N) :
  recognized_length s m -> _column_type_length s d = m.
Proof.
  intros R. apply length_suffix_search_spec in R.
  unfold _column_type_length. now rewrite R.
Qed.

Lemma column_type_length_default (s : string) (d : option N) :
  (forall m, ~ recognized_length s m) ->
  _column_type_length s d
  = match d with
    | Some n => if (n =? 0)%N then "" else "(" ++ str_of_N n ++ ")"
    | None => ""
    end.
Proof.
  intros R. unfold _column_type_length.
  destruct (Re.length_suffix_search s) as [m|] eqn:E; [|reflexivity].
  apply length_suffix_search_spec in E. now apply R in E.
Qed.




(** The examples of the specification. *)
Example C5_examples :
  translate "DECIMAL(10,2)" = Ok "DECIMAL(10,2)" /\
  translate "CHARACTER(10,2)" = Ok "CHAR" /\
  translate "VARCHAR(10,2)" = Ok "VARCHAR(255)" /\
  translate "UNSIGNED BIG INT(10,2)" = Ok "BIGINT UNSIGNED" /\
  translate "CHARACTER(10)" = Ok "CHAR(10)" /\
  translate "decimal(10)" = Ok "DECIMAL(10)".
Proof. repeat split; vm_compute; reflexivity. Qed.

(* ================================================================== *)
(** ** Lemmas on substrings, [split] and [join] *)

Section Substrings.

Lemma prefix_nil (s : string) : String.prefix "" s = true.
Proof. destruct s; reflexivity. Qed.

Lemma prefix_cons (a b : ascii) (w s : string) :
  String.prefix (String a w) (String b s)
  = Ascii.eqb a b && String.prefix w s.
Proof.
  simpl. destruct (ascii_dec a b) as [->|N].
  - now rewrite Ascii.eqb_refl.
  - apply Ascii.eqb_neq in N. now rewrite N.
Qed.

Lemma prefix_spec (w s : string) :
  String.prefix w s = true <-> exists b, s = w ++ b.
Proof.
  revert s. induction w as [|a w IH]; intros s.
  - rewrite prefix_nil. split; [exists s; reflexivity | auto].
  - destruct s as [|b s].
    + simpl. split; [discriminate | intros [x H]; discriminate].
    + rewrite prefix_cons, andb_true_iff, Ascii.eqb_eq, IH. split.
      * intros [-> [x ->]]. exists x. reflexivity.
      * intros [x H]. simpl in H. injection H as -> ->. eauto.
Qed.

Lemma contains_cons (w : string) (c : ascii) (s : string) :
  contains w (String c s) = String.prefix w (String c s) || contains w s.
Proof. reflexivity. Qed.

Lemma contains_spec (w s : string) :
  contains w s = true <-> exists a b, s = a ++ w ++ b.
Proof.
  induction s as [|c s IH].
  - simpl. rewrite orb_false_r. split.
    + intros H. destruct w; [|discriminate]. exists "", "". reflexivity.
    + intros (a & b & H). symmetry in H.
      apply append_eq_nil in H as [_ H]. apply append_eq_nil in H as [-> _].
      reflexivity.
  - rewrite contains_cons.
    rewrite orb_true_iff, prefix_spec, IH. split.
    + intros [[b H] | (a & b & ->)].
      * exists "", b. exact H.
      * exists (String c a), b. reflexivity.
    + intros ([|x a] & b & H).
      * left. exists b. exact H.
      * right. simpl in H. injection H as -> ->. eauto.
Qed.

Lemma contains_app (a w b : string) : contains w (a ++ w ++ b) = true.
Proof. apply contains_spec. eauto. Qed.

Lemma contains_inside (w x a b : string) :
  contains w x = true -> contains w (a ++ x ++ b) = true.
Proof.
  intros H. apply contains_spec in H as (p & q & ->).
  apply contains_spec. exists (a ++ p), (q ++ b).
  now rewrite !append_assoc.
Qed.

Lemma contains_app_l (w a b : string) :
  contains w a = true -> contains w (a ++ b) = true.
Proof. intros H. now apply (contains_inside w a "" b). Qed.

Lemma contains_app_r (w a b : string) :
  contains w b = true -> contains w (a ++ b) = true.
Proof.
  intros H. rewrite <- (append_nil_r b). now apply contains_inside.
Qed.

(** A word without the character [d] does not reach across [d]. *)
Lemma prefix_app_delim (w a b : string) (d : ascii) :
  char_in d w = false ->
  String.prefix w (a ++ String d b) = true -> String.prefix w a = true.
Proof.
  revert a. induction w as [|x w IH]; intros a Hd H.
  - apply prefix_nil.
  - simpl in Hd. apply orb_false_iff in Hd as [Hx Hw].
    destruct a as [|y a].
    + simpl append in H. rewrite prefix_cons in H.
      apply andb_true_iff in H as [H _].
      rewrite Ascii.eqb_sym in Hx. congruence.
    + simpl append in H. rewrite prefix_cons in *.
      apply andb_true_iff in H as [-> H]. simpl. now apply IH.
Qed.

Lemma contains_app_delim (w a b : string) (d : ascii) :
  char_in d w = false ->
  contains w (a ++ String d b) = true ->
  contains w a = true \/ contains w b = true.
Proof.
  intros Hd. induction a as [|x a IH].
  - simpl append. rewrite contains_cons.
    intros H. apply orb_true_iff in H as [H|H]; [|now right].
    left. destruct w as [|y w]; [reflexivity|].
    rewrite prefix_cons in H. apply andb_true_iff in H as [H _].
    simpl in Hd. apply orb_false_iff in Hd as [Hd _].
    rewrite Ascii.eqb_sym in Hd. congruence.
  - simpl append. rewrite !contains_cons.
    intros H. apply orb_true_iff in H as [H|H].
    + left. change (String x (a ++ String d b))
        with (String x a ++ String d b) in H.
      apply prefix_app_delim in H; [|exact Hd].
      now rewrite H.
    + destruct (IH H) as [K|K]; [left | now right].
      rewrite K. apply orb_true_r.
Qed.

(** The same, for words that are absent. *)
Lemma free_app_delim (w a b : string) (d : ascii) :
  char_in d w = false ->
  contains w a = false -> contains w b = false ->
  contains w (a ++ String d b) = false.
Proof.
  intros Hd Ha Hb. destruct (contains w (a ++ String d b)) eqn:E; [|reflexivity].
  destruct (contains_app_delim w a b d Hd E); congruence.
Qed.

Lemma free_cons_delim (w b : string) (d : ascii) :
  char_in d w = false -> contains w "" = false -> contains w b = false ->
  contains w (String d b) = false.
Proof. intros Hd He Hb. now apply (free_app_delim w "" b d). Qed.

Lemma free_app_l (w a b : string) :
  contains w (a ++ b) = false -> contains w a = false.
Proof.
  intros H. destruct (contains w a) eqn:E; [|reflexivity].
  now rewrite (contains_app_l w a b E) in H.
Qed.

Lemma free_app_r (w a b : string) :
  contains w (a ++ b) = false -> contains w b = false.
Proof.
  intros H. destruct (contains w b) eqn:E; [|reflexivity].
  now rewrite (contains_app_r w a b E) in H.
Qed.

Lemma free_rstrip (p : ascii -> bool) (w s : string) :
  contains w s = false -> contains w (rstrip_by p s) = false.
Proof.
  intros H. destruct (rstrip_by_split p s) as (z & E & _).
  rewrite E in H. now apply free_app_l in H.
Qed.

(** *** [join] *)

Lemma join_cons (sep x : string) (l : list string) :
  exists suf, join sep (x :: l) = x ++ suf.
Proof.
  destruct l as [|y l].
  - exists "". simpl. now rewrite append_nil_r.
  - exists (sep ++ join sep (y :: l)). reflexivity.
Qed.

Lemma join_app (sep : string) (l1 l2 : list string) :
  exists pre, join sep (l1 ++ l2) = pre ++ join sep l2.
Proof.
  induction l1 as [|x l1 [pre IH]].
  - exists "". reflexivity.
  - destruct (l1 ++ l2)%list as [|y l] eqn:E.
    + apply app_eq_nil in E as [-> ->]. exists x. simpl. now rewrite append_nil_r.
    + exists (x ++ sep ++ pre). simpl app. rewrite E.
      change (join sep (x :: y :: l)) with (x ++ sep ++ join sep (y :: l)).
      rewrite IH. now rewrite !append_assoc.
Qed.

Lemma join_In (sep t : string) (l : list string) :
  In t l -> exists pre suf, join sep l = pre ++ t ++ suf.
Proof.
  intros H. apply in_split in H as (l1 & l2 & ->).
  destruct (join_app sep l1 (t :: l2)) as [pre E].
  destruct (join_cons sep t l2) as [suf F].
  exists pre, suf. now rewrite E, F.
Qed.

Lemma free_join (w : string) (sep : ascii) (l : list string) :
  char_in sep w = false -> contains w "" = false ->
  Forall (fun t => contains w t = false) l ->
  contains w (join (String sep "") l) = false.
Proof.
  intros Hs He H. induction H as [|t l Ht Hl IH]; [exact He|].
  destruct l as [|u l]; [exact Ht|].
  change (join (String sep "") (t :: u :: l))
    with (t ++ String sep (join (String sep "") (u :: l))).
  now apply free_app_delim.
Qed.

(** *** [split] *)

Lemma split_acc_space (cur a b : string) (c : ascii) :
  is_space c = true ->
  split_acc cur (a ++ String c b) = (split_acc cur a ++ split b)%list.
Proof.
  intros Hc. revert cur. induction a as [|x a IH]; intros cur.
  - simpl. rewrite Hc. destruct (is_empty cur); reflexivity.
  - simpl. destruct (is_space x).
    + destruct (is_empty cur); [apply IH | simpl; now rewrite IH].
    + apply IH.
Qed.

Lemma split_space (a b : string) (c : ascii) :
  is_space c = true -> split (a ++ String c b) = (split a ++ split b)%list.
Proof. apply split_acc_space. Qed.

Lemma split_acc_word (cur w b : string) :
  all_chars (fun c => negb (is_space c)) w = true ->
  split_acc cur (w ++ b) = split_acc (cur ++ w) b.
Proof.
  revert cur. induction w as [|x w IH]; intros cur H.
  - simpl. now rewrite append_nil_r.
  - simpl in H. apply andb_true_iff in H as [Hx Hw].
    apply negb_true_iff in Hx. simpl. rewrite Hx, (IH _ Hw).
    now rewrite append_assoc.
Qed.

Lemma split_acc_first (cur b : string) :
  cur <> "" -> exists t rest, split_acc cur b = (cur ++ t) :: rest.
Proof.
  revert cur. induction b as [|x b IH]; intros cur H.
  - exists "", []. simpl. destruct cur; [congruence|].
    now rewrite append_nil_r.
  - simpl. destruct (is_space x).
    + exists "", (split_acc "" b). destruct cur; [congruence|].
      now rewrite append_nil_r.
    + destruct (IH (cur ++ String x "")) as (t & rest & E).
      { intros E. apply append_eq_nil in E as [_ E]. discriminate. }
      exists (String x t), rest. rewrite E. now rewrite append_assoc.
Qed.

(** The words of [split] are pieces of the string. *)
Lemma split_acc_free (w cur s : string) :
  contains w (cur ++ s) = false ->
  Forall (fun t => contains w t = false) (split_acc cur s).
Proof.
  revert cur. induction s as [|x s IH]; intros cur H.
  - simpl. rewrite append_nil_r in H. destruct (is_empty cur); auto.
  - simpl. destruct (is_space x).
    + assert (Hs : Forall (fun t => contains w t = false) (split_acc "" s)).
      { apply IH. simpl. apply free_app_r in H.
        now apply (free_app_r w (String x "") s). }
      destruct (is_empty cur); [exact Hs|].
      constructor; [now apply free_app_l in H | exact Hs].
    + apply IH. now rewrite append_assoc.
Qed.

(** A word without whitespace survives [" ".join(s.split())]. *)
Lemma split_acc_keeps (w cur a b : string) :
  w <> "" -> all_chars (fun c => negb (is_space c)) w = true ->
  exists t, In t (split_acc cur (a ++ w ++ b)) /\ contains w t = true.
Proof.
  intros Hne Hw. revert cur. induction a as [|x a IH]; intros cur.
  - simpl append. rewrite (split_acc_word _ _ _ Hw).
    destruct (split_acc_first (cur ++ w) b) as (t & rest & E).
    { intros E. apply append_eq_nil in E as [_ E]. congruence. }
    exists ((cur ++ w) ++ t). rewrite E. split; [now left|].
    rewrite append_assoc. apply contains_app.
  - simpl. destruct (is_space x).
    + destruct (IH "") as (t & Ht & C). exists t.
      destruct (is_empty cur); [auto | split; [now right | exact C]].
    + apply IH.
Qed.

Lemma contains_normalize (w s : string) :
  w <> "" -> all_chars (fun c => negb (is_space c)) w = true ->
  contains w s = true -> contains w (join " " (split s)) = true.
Proof.
  intros Hne Hw H. apply contains_spec in H as (a & b & ->).
  destruct (split_acc_keeps w "" a b Hne Hw) as (t & Ht & C).
  destruct (join_In " " t _ Ht) as (pre & suf & E).
  unfold split. rewrite E. now apply contains_inside.
Qed.

Lemma free_normalize (w s : string) :
  char_in " " w = false -> contains w "" = false ->
  contains w s = false -> contains w (join " " (split s)) = false.
Proof.
  intros Hs He H. apply free_join; [exact Hs | exact He|].
  now apply split_acc_free.
Qed.

(** A word that ends with a character [rstrip] keeps is not removed. *)
Lemma contains_rstrip (p : ascii -> bool) (w : string) (t : ascii) (s : string) :
  p t = false ->
  contains (w ++ String t "") s = true ->
  contains (w ++ String t "") (rstrip_by p s) = true.
Proof.
  intros Ht H. apply contains_spec in H as (a & b & ->).
  rewrite append_assoc. simpl (String t "" ++ b).
  rewrite <- !append_assoc.
  rewrite rstrip_by_app
    by (rewrite rstrip_by_keep by exact Ht; discriminate).
  rewrite rstrip_by_keep by exact Ht.
  rewrite append_assoc.
  change (String t (rstrip_by p b)) with (String t "" ++ rstrip_by p b).
  rewrite <- (append_assoc w). apply contains_app.
Qed.

End Substrings.

(* ================================================================== *)
(** ** The CREATE TABLE statement: lemmas *)

Section CreateTable.

Lemma auto_increment_of_ok (c : column) (ty : string) :
  translate (type c) = Ok ty ->
  auto_increment_of c
  = Ok (if truthy (pk c) && mem ty ["INT"; "BIGINT"]
        then "AUTO_INCREMENT" else "").
Proof.
  intros T. unfold auto_increment_of.
  destruct (truthy (pk c)); [|reflexivity].
  rewrite T. reflexivity.
Qed.

Lemma auto_increment_iff (c : column) (ty : string) :
  translate (type c) = Ok ty ->
  (auto_increment_of c = Ok "AUTO_INCREMENT"
   <-> truthy (pk c) = true /\ mem ty ["INT"; "BIGINT"] = true).
Proof.
  intros T. rewrite (auto_increment_of_ok c ty T).
  destruct (truthy (pk c)), (mem ty ["INT"; "BIGINT"]); simpl;
    split; try (intros [? ?]); intros; try discriminate; auto.
Qed.

Lemma auto_increment_of_no_pk (c : column) :
  truthy (pk c) = false -> auto_increment_of c = Ok "".
Proof. intros H. unfold auto_increment_of. now rewrite H. Qed.

Lemma column_sql_ok (c : column) :
  translatable c = true -> column_sql c = Ok (frag_of c).
Proof.
  unfold translatable, frag_of, column_sql.
  destruct (translate (type c)) as [ty|e] eqn:T; [|discriminate].
  intros _. simpl. rewrite (auto_increment_of_ok c ty T). reflexivity.
Qed.

Lemma column_sql_raise (c : column) :
  translatable c = false -> column_sql c = Raise invalid_column_type.
Proof.
  unfold translatable, column_sql.
  destruct (translate (type c)) as [ty|e] eqn:T; [discriminate|].
  intros _. apply translate_raise in T. now subst e.
Qed.

Lemma frags_cons (c : column) (rows : list column) :
  frags (c :: rows) = frag_of c ++ frags rows.
Proof.
  unfold frags, join. simpl map. destruct rows as [|d rows].
  - simpl. now rewrite append_nil_r.
  - reflexivity.
Qed.

(** The loop, in closed form. *)
Lemma create_table_loop_spec (rows : list column) (sql primary_key : string) :
  create_table_loop rows sql primary_key
  = if forallb translatable rows
    then Ok (sql ++ frags rows, last_pk rows primary_key)
    else Raise invalid_column_type.
Proof.
  revert sql primary_key.
  induction rows as [|c rows IH]; intros sql primary_key.
  - simpl. unfold frags. simpl. now rewrite append_nil_r.
  - simpl. destruct (translatable c) eqn:T.
    + rewrite (column_sql_ok c T). simpl. rewrite IH.
      destruct (forallb translatable rows); [|reflexivity].
      now rewrite frags_cons, append_assoc.
    + rewrite (column_sql_raise c T). reflexivity.
Qed.

(** The statement, in closed form. *)
Lemma create_table_sql_spec (table_name : string) (rows : list column) :
  create_table_sql table_name rows
  = if forallb translatable rows
    then Ok (join " " (split
               (rstrip_chars ", " (create_table_head table_name ++ frags rows)
                ++ primary_key_clause (last_pk rows "")
                ++ create_table_tail)))
    else Raise invalid_column_type.
Proof.
  unfold create_table_sql. rewrite create_table_loop_spec.
  destruct (forallb translatable rows); [|reflexivity].
  simpl. now rewrite append_assoc.
Qed.

Lemma create_table_sql_raise (table_name : string) (rows : list column)
      (c : column) (e : exn) :
  In c rows -> translate (type c) = Raise e ->
  create_table_sql table_name rows = Raise invalid_column_type.
Proof.
  intros Hin T. rewrite create_table_sql_spec.
  destruct (forallb translatable rows) eqn:F; [|reflexivity].
  rewrite forallb_forall in F. specialize (F c Hin).
  unfold translatable in F. rewrite T in F. discriminate.
Qed.

Lemma create_table_sql_ok (table_name : string) (rows : list column)
      (sql : string) :
  create_table_sql table_name rows = Ok sql ->
  forallb translatable rows = true.
Proof.
  rewrite create_table_sql_spec.
  destruct (forallb translatable rows); [reflexivity | discriminate].
Qed.

(** *** The primary key *)

Lemma last_pk_app (a b : list column) (init : string) :
  last_pk (a ++ b) init = last_pk b (last_pk a init).
Proof.
  revert init. induction a as [|c a IH]; intros init; [reflexivity|].
  simpl. apply IH.
Qed.

Lemma last_pk_none (rows : list column) (init : string) :
  Forall (fun c => truthy (pk c) = false) rows -> last_pk rows init = init.
Proof.
  intros H. revert init. induction H as [|c rows Hc _ IH]; intros init.
  - reflexivity.
  - simpl. rewrite Hc. apply IH.
Qed.

Lemma last_pk_last (before after : list column) (c : column) (init : string) :
  truthy (pk c) = true ->
  Forall (fun x => truthy (pk x) = false) after ->
  last_pk (before ++ c :: after) init = name c.
Proof.
  intros Hc Ha. rewrite last_pk_app. simpl. rewrite Hc.
  now apply last_pk_none.
Qed.

Lemma primary_key_clause_named (n : string) :
  n <> "" -> primary_key_clause n = ", PRIMARY KEY (`" ++ n ++ "`)".
Proof. intros H. unfold primary_key_clause. destruct n; [congruence | reflexivity]. Qed.

(** *** Words that the statement keeps *)

Lemma normalize_primary_key (a b : string) :
  contains "PRIMARY KEY" (join " " (split (a ++ " PRIMARY KEY " ++ b))) = true.
Proof.
  change (" PRIMARY KEY " ++ b)
    with (String " " ("PRIMARY" ++ String " " ("KEY" ++ String " " b))).
  rewrite !split_space by reflexivity.
  change (split "PRIMARY") with ["PRIMARY"].
  change (split "KEY") with ["KEY"].
  destruct (join_app " " (split a) (["PRIMARY"] ++ ["KEY"] ++ split b))
    as [pre E].
  rewrite E. simpl app.
  destruct (join_cons " " "KEY" (split b)) as [suf F].
  change (join " " ("PRIMARY" :: "KEY" :: split b))
    with ("PRIMARY " ++ join " " ("KEY" :: split b)).
  rewrite F.
  replace (pre ++ "PRIMARY " ++ "KEY" ++ suf)
    with (pre ++ "PRIMARY KEY" ++ suf) by reflexivity.
  apply contains_app.
Qed.

Lemma contains_primary_key (table_name : string) (rows : list column)
      (n sql : string) :
  n <> "" -> last_pk rows "" = n ->
  create_table_sql table_name rows = Ok sql ->
  contains "PRIMARY KEY" sql = true.
Proof.
  intros Hn Hl. rewrite create_table_sql_spec.
  destruct (forallb translatable rows); [|discriminate].
  intros [= <-]. rewrite Hl, (primary_key_clause_named n Hn).
  set (R := rstrip_chars ", " _).
  replace (R ++ (", PRIMARY KEY (`" ++ n ++ "`)") ++ create_table_tail)
    with ((R ++ ",") ++ " PRIMARY KEY " ++ ("(`" ++ n ++ "`)" ++ create_table_tail)).
  - apply normalize_primary_key.
  - rewrite !append_assoc. reflexivity.
Qed.

Lemma frags_In (c : column) (rows : list column) :
  In c rows -> exists pre suf, frags rows = pre ++ frag_of c ++ suf.
Proof.
  intros H. unfold frags. apply join_In. now apply in_map.
Qed.

Lemma contains_auto_increment (table_name : string) (rows : list column)
      (c : column) (ty sql : string) :
  In c rows -> truthy (pk c) = true ->
  translate (type c) = Ok ty -> mem ty ["INT"; "BIGINT"] = true ->
  create_table_sql table_name rows = Ok sql ->
  contains "AUTO_INCREMENT" sql = true.
Proof.
  intros Hin Hpk T Hm. rewrite create_table_sql_spec.
  destruct (forallb translatable rows); [|discriminate].
  intros [= <-].
  apply contains_normalize; [discriminate | reflexivity|].
  apply contains_app_l.
  apply (contains_rstrip _ "AUTO_INCREMEN" "T"); [reflexivity|].
  apply contains_app_r.
  destruct (frags_In c rows Hin) as (pre & suf & ->).
  apply contains_inside.
  unfold frag_of. rewrite T, Hpk, Hm. simpl andb. cbv iota.
  unfold column_format.
  replace (" `" ++ name c ++ "` " ++ ty ++ " " ++ notnull_of c ++ " "
           ++ "AUTO_INCREMENT" ++ ", ")
    with ((" `" ++ name c ++ "` " ++ ty ++ " " ++ notnull_of c ++ " ")
          ++ "AUTO_INCREMENT" ++ ", ")
    by (now rewrite !append_assoc).
  apply contains_app.
Qed.

End CreateTable.

(* ================================================================== *)
(** ** Words that the statement does not contain *)

Section Free.

Variable w : string.
Hypothesis Hw : plain_word w = true.

Lemma plain_word_facts :
  contains w "" = false /\
  char_in " " w = false /\ char_in "`" w = false /\ char_in "," w = false /\
  contains w "CREATE TABLE IF NOT EXISTS " = false /\
  contains w " ( " = false /\
  contains w "NULL" = false /\ contains w "NOT NULL" = false /\
  contains w ") ENGINE = InnoDB CHARACTER SET utf8" = false.
Proof.
  unfold plain_word in Hw.
  repeat (apply andb_true_iff in Hw; destruct Hw as [Hw ?H]).
  repeat match goal with
         | H : negb _ = true |- _ => apply negb_true_iff in H
         end.
  repeat split; assumption.
Qed.

Lemma free_frag_of (c : column) (acc : string) :
  contains w (name c) = false ->
  (forall ty, translate (type c) = Ok ty -> contains w ty = false) ->
  auto_increment_of c = Ok "" \/ contains w "AUTO_INCREMENT" = false ->
  contains w acc = false ->
  contains w (acc ++ frag_of c) = false.
Proof.
  destruct plain_word_facts as (He & Hs & Hb & Hc & _ & _ & Hn & Hnn & _).
  intros Hname Hty Hai Hacc. unfold frag_of.
  destruct (translate (type c)) as [ty|e] eqn:T;
    [|now rewrite append_nil_r].
  specialize (Hty ty eq_refl).
  assert (Hnull : contains w (notnull_of c) = false)
    by (unfold notnull_of; destruct (truthy (notnull c)); assumption).
  set (ai := if truthy (pk c) && mem ty ["INT"; "BIGINT"]
             then "AUTO_INCREMENT" else "").
  assert (Hslot : contains w ai = false).
  { unfold ai. destruct Hai as [Hai | Hai].
    - rewrite (auto_increment_of_ok c ty T) in Hai.
      replace (if truthy (pk c) && mem ty ["INT"; "BIGINT"]
               then "AUTO_INCREMENT" else "") with "" by congruence.
      exact He.
    - destruct (truthy (pk c) && mem ty ["INT"; "BIGINT"]); assumption. }
  clearbody ai.
  change (column_format (name c) ty (notnull_of c) ai)
    with (String " " (String "`" (name c ++ String "`" (String " "
           (ty ++ String " " (notnull_of c ++ String " "
             (ai ++ String "," (String " " "")))))))).
  apply free_app_delim; [exact Hs | exact Hacc|].
  apply free_cons_delim; [exact Hb | exact He|].
  apply free_app_delim; [exact Hb | exact Hname|].
  apply free_cons_delim; [exact Hs | exact He|].
  apply free_app_delim; [exact Hs | exact Hty|].
  apply free_app_delim; [exact Hs | exact Hnull|].
  apply free_app_delim; [exact Hc | exact Hslot|].
  apply free_cons_delim; [exact Hs | exact He | exact He].
Qed.

Lemma free_frags (rows : list column) (acc : string) :
  Forall (fun c => contains w (name c) = false /\
                   forall ty, translate (type c) = Ok ty ->
                              contains w ty = false) rows ->
  Forall (fun c => auto_increment_of c = Ok "") rows
  \/ contains w "AUTO_INCREMENT" = false ->
  contains w acc = false ->
  contains w (acc ++ frags rows) = false.
Proof.
  intros H Hai. revert acc. induction H as [|c rows [Hn Ht] _ IH]; intros acc Hacc.
  - unfold frags. simpl. now rewrite append_nil_r.
  - rewrite frags_cons, <- append_assoc. apply IH.
    + destruct Hai as [Hai | Hai]; [left | now right].
      now inversion Hai.
    + apply free_frag_of; try assumption.
      destruct Hai as [Hai | Hai]; [left | now right].
      now inversion Hai.
Qed.

Lemma free_head (table_name : string) :
  contains w table_name = false ->
  contains w (create_table_head table_name) = false.
Proof.
  destruct plain_word_facts as (He & Hs & Hb & Hc & Hcr & Hp & _).
  intros H. unfold create_table_head.
  change ("CREATE TABLE IF NOT EXISTS `" ++ table_name ++ "` ( ")
    with ("CREATE TABLE IF NOT EXISTS "
          ++ String "`" (table_name ++ String "`" " ( ")).
  apply free_app_delim; [exact Hb | exact Hcr|].
  apply free_app_delim; [exact Hb | exact H | exact Hp].
Qed.

(** The column definitions of the statement. *)
Lemma free_body (table_name : string) (rows : list column) :
  text_free w table_name rows ->
  Forall (fun c => auto_increment_of c = Ok "") rows
  \/ contains w "AUTO_INCREMENT" = false ->
  contains w (rstrip_chars ", " (create_table_head table_name ++ frags rows))
  = false.
Proof.
  intros [Ht Hr] Hai. apply free_rstrip.
  apply free_frags; [exact Hr | exact Hai|]. now apply free_head.
Qed.

Lemma last_pk_cases (rows : list column) (init : string) :
  last_pk rows init = init \/ exists c, In c rows /\ last_pk rows init = name c.
Proof.
  revert init. induction rows as [|c rows IH]; intros init; [now left|].
  simpl. destruct (IH (if truthy (pk c) then name c else init))
    as [E | (d & Hd & E)].
  - destruct (truthy (pk c)); [right | now left].
    exists c. split; [now left | exact E].
  - right. exists d. split; [now right | exact E].
Qed.

Lemma free_last_pk (table_name : string) (rows : list column) :
  text_free w table_name rows -> contains w (last_pk rows "") = false.
Proof.
  destruct plain_word_facts as (He & _).
  intros [_ Hr]. destruct (last_pk_cases rows "") as [-> | (c & Hc & ->)].
  - exact He.
  - rewrite Forall_forall in Hr. now apply Hr.
Qed.

(** The whole statement: [w] may not occur in the opening of the PRIMARY
    KEY clause either, when there is one. *)
Lemma free_sql (table_name : string) (rows : list column) (sql : string) :
  text_free w table_name rows ->
  Forall (fun c => auto_increment_of c = Ok "") rows
  \/ contains w "AUTO_INCREMENT" = false ->
  last_pk rows "" = ""
  \/ (contains w " PRIMARY KEY (" = false /\ char_in ")" w = false) ->
  create_table_sql table_name rows = Ok sql ->
  contains w sql = false.
Proof.
  destruct plain_word_facts as (He & Hs & Hb & Hc & _ & _ & _ & _ & Htl).
  intros Hf Hai Hl. rewrite create_table_sql_spec.
  destruct (forallb translatable rows); [|discriminate].
  intros [= <-].
  apply free_normalize; [exact Hs | exact He|].
  pose proof (free_body table_name rows Hf Hai) as HR.
  pose proof (free_last_pk table_name rows Hf) as Hn.
  unfold primary_key_clause.
  destruct (last_pk rows "") as [|x n] eqn:E.
  - change (is_empty "") with true. cbv iota.
    change ("" ++ create_table_tail)
      with (String " " ") ENGINE = InnoDB CHARACTER SET utf8").
    apply free_app_delim; [exact Hs | exact HR | exact Htl].
  - destruct Hl as [Hl | [Hpk Hp]]; [discriminate|].
    change (is_empty (String x n)) with false. cbv iota.
    replace ((", PRIMARY KEY (`" ++ String x n ++ "`)") ++ create_table_tail)
      with (String "," (" PRIMARY KEY ("
              ++ String "`" (String x n
                   ++ String "`" (String ")" (String " "
                        ") ENGINE = InnoDB CHARACTER SET utf8")))))
      by (simpl; now rewrite append_assoc).
    apply free_app_delim; [exact Hc | exact HR|].
    apply free_app_delim; [exact Hb | exact Hpk|].
    apply free_app_delim; [exact Hb | exact Hn|].
    apply free_cons_delim; [exact Hp | exact He|].
    apply free_cons_delim; [exact Hs | exact He | exact Htl].
Qed.

End Free.

Lemma contains_first_word (u v s : string) :
  contains (u ++ v) s = true -> contains u s = true.
Proof.
  intros H. apply contains_spec in H as (a & b & ->).
  rewrite append_assoc. apply contains_app.
Qed.

(* ================================================================== *)
(** ** The CREATE TABLE statement: the claims *)

(** C6: when no column has the primary-key flag, the statement has no
    PRIMARY KEY clause and no AUTO_INCREMENT marker: every column's
    auto-increment field is empty, the loop ends with an empty primary key,
    so the tail follows the column definitions directly; and the words occur
    in the statement only where the table name, a column name or a type
    brings them. *)
Theorem C6_no_primary_key (table_name : string) (rows : list column)
        (sql : string) :
  Forall (fun c => truthy (pk c) = false) rows ->
  create_table_sql table_name rows = Ok sql ->
  Forall (fun c => auto_increment_of c = Ok "") rows /\
  create_table_loop rows (create_table_head table_name) ""
  = Ok (create_table_head table_name ++ frags rows, "") /\
  sql = join " " (split
          (rstrip_chars ", " (create_table_head table_name ++ frags rows)
           ++ create_table_tail)) /\
  (text_free "AUTO_INCREMENT" table_name rows ->
   contains "AUTO_INCREMENT" sql = false) /\
  (text_free "PRIMARY" table_name rows ->
   contains "PRIMARY KEY" sql = false).
Proof.
  intros Hpk Hsql.
  pose proof (create_table_sql_ok _ _ _ Hsql) as Hall.
  pose proof (last_pk_none rows "" Hpk) as Hl.
  assert (Hai : Forall (fun c => auto_increment_of c = Ok "") rows).
  { eapply Forall_impl; [|exact Hpk]. intros c. apply auto_increment_of_no_pk. }
  split; [exact Hai|]. split; [|split; [|split]].
  - now rewrite create_table_loop_spec, Hall, Hl.
  - rewrite create_table_sql_spec, Hall, Hl in Hsql.
    now injection Hsql as <-.
  - intros Hf.
    apply (free_sql "AUTO_INCREMENT" eq_refl table_name rows); auto.
  - intros Hf.
    destruct (contains "PRIMARY KEY" sql) eqn:E; [|reflexivity].
    apply (contains_first_word "PRIMARY" " KEY") in E.
    rewrite (free_sql "PRIMARY" eq_refl table_name rows sql) in E; auto.
Qed.

Lemma C6_witness :
  create_table_sql "t" [title_column]
  = Ok "CREATE TABLE IF NOT EXISTS `t` ( `title` VARCHAR(255) NULL ) ENGINE = InnoDB CHARACTER SET utf8"
  /\ auto_increment_of title_column = Ok "".
Proof.
  assert (H : create_table_sql "t" [title_column]
              = Ok "CREATE TABLE IF NOT EXISTS `t` ( `title` VARCHAR(255) NULL ) ENGINE = InnoDB CHARACTER SET utf8")
    by reflexivity.
  split; [exact H|].
  assert (F : Forall (fun c => truthy (pk c) = false) [title_column])
    by (repeat constructor).
  destruct (C6_no_primary_key "t" [title_column] _ F H) as (A & _).
  now inversion A.
Defined.

(** C1, as amended: for a table whose single primary-key column has a
    non-empty name and a declared type with a translation, the statement has
    the PRIMARY KEY clause for that column; a column has the AUTO_INCREMENT
    marker exactly when its primary-key flag is set and its translated type
    is INT or BIGINT (so a key declared INT, BIGINT, INT1 or INT2 has it, one
    declared INTEGER or TEXT does not), and when the key has no marker no
    column of the table has one. *)
Theorem C1_primary_key_auto_increment
        (table_name : string) (before after : list column) (c : column)
        (ty sql : string) :
  truthy (pk c) = true ->
  Forall (fun x => truthy (pk x) = false) (before ++ after) ->
  name c <> "" ->
  translate (type c) = Ok ty ->
  create_table_sql table_name (before ++ c :: after) = Ok sql ->
  create_table_loop (before ++ c :: after) (create_table_head table_name) ""
  = Ok (create_table_head table_name ++ frags (before ++ c :: after), name c) /\
  sql = join " " (split
          (rstrip_chars ", "
             (create_table_head table_name ++ frags (before ++ c :: after))
           ++ (", PRIMARY KEY (`" ++ name c ++ "`)")
           ++ create_table_tail)) /\
  contains "PRIMARY KEY" sql = true /\
  (forall x tx, translate (type x) = Ok tx ->
     (auto_increment_of x = Ok "AUTO_INCREMENT"
      <-> truthy (pk x) = true /\ mem tx ["INT"; "BIGINT"] = true)) /\
  (auto_increment_of c = Ok "AUTO_INCREMENT"
   <-> mem ty ["INT"; "BIGINT"] = true) /\
  (mem ty ["INT"; "BIGINT"] = true -> contains "AUTO_INCREMENT" sql = true) /\
  (mem ty ["INT"; "BIGINT"] = false ->
   Forall (fun x => auto_increment_of x = Ok "") (before ++ c :: after) /\
   (text_free "AUTO_INCREMENT" table_name (before ++ c :: after) ->
    contains "AUTO_INCREMENT" sql = false)).
Proof.
  intros Hpk Hrest Hname T Hsql.
  apply Forall_app in Hrest as [Hb Ha].
  pose proof (create_table_sql_ok _ _ _ Hsql) as Hall.
  pose proof (last_pk_last before after c "" Hpk Ha) as Hl.
  pose proof (auto_increment_of_ok c ty T) as Hc.
  rewrite Hpk, andb_true_l in Hc.
  split; [|split; [|split; [|split; [|split; [|split]]]]].
  - now rewrite create_table_loop_spec, Hall, Hl.
  - rewrite create_table_sql_spec, Hall, Hl in Hsql.
    rewrite (primary_key_clause_named _ Hname) in Hsql.
    now injection Hsql as <-.
  - now apply (contains_primary_key table_name (before ++ c :: after) (name c)).
  - intros x tx. apply auto_increment_iff.
  - rewrite Hc. destruct (mem ty ["INT"; "BIGINT"]); cbv iota;
      split; intros; (reflexivity || discriminate).
  - intros Hm.
    apply (contains_auto_increment table_name (before ++ c :: after) c ty);
      auto using in_elt.
  - intros Hm. rewrite Hm in Hc.
    assert (Hai : Forall (fun x => auto_increment_of x = Ok "")
                    (before ++ c :: after)).
    { apply Forall_app. split; [|constructor; [exact Hc|]].
      - eapply Forall_impl; [|exact Hb]. intros x. apply auto_increment_of_no_pk.
      - eapply Forall_impl; [|exact Ha]. intros x. apply auto_increment_of_no_pk. }
    split; [exact Hai|]. intros Hf.
    apply (free_sql "AUTO_INCREMENT" eq_refl table_name (before ++ c :: after));
      auto.
Qed.

Lemma C1_witness :
  contains "PRIMARY KEY"
    "CREATE TABLE IF NOT EXISTS `t` ( `id` INT NOT NULL AUTO_INCREMENT, `title` VARCHAR(255) NULL, PRIMARY KEY (`id`) ) ENGINE = InnoDB CHARACTER SET utf8"
  = true /\
  auto_increment_of id_int_column = Ok "AUTO_INCREMENT".
Proof.
  assert (F : Forall (fun x => truthy (pk x) = false) ([] ++ [title_column]))
    by (repeat constructor).
  assert (N : name id_int_column <> "") by discriminate.
  destruct (C1_primary_key_auto_increment "t" [] [title_column] id_int_column
              "INT" _ eq_refl F N eq_refl eq_refl) as (_ & _ & P & _ & A & _).
  split; [exact P | now apply A].
Defined.

(** C1, as stated, fails: INTEGER is an integer declared type, and the
    statement for a table with an INTEGER primary key has the PRIMARY KEY
    clause but no AUTO_INCREMENT. *)
Lemma C1_counterexample :
  truthy (pk id_integer_column) = true /\
  translate (type id_integer_column) = Ok "INTEGER" /\
  auto_increment_of id_integer_column = Ok "" /\
  create_table_sql "t" [id_integer_column]
  = Ok "CREATE TABLE IF NOT EXISTS `t` ( `id` INTEGER NOT NULL, PRIMARY KEY (`id`) ) ENGINE = InnoDB CHARACTER SET utf8" /\
  contains "AUTO_INCREMENT"
    "CREATE TABLE IF NOT EXISTS `t` ( `id` INTEGER NOT NULL, PRIMARY KEY (`id`) ) ENGINE = InnoDB CHARACTER SET utf8"
  = false.
Proof. repeat split. Qed.

(** The text primary key of the specification. *)
Example C1_text_primary_key :
  create_table_sql "t" [id_text_column]
  = Ok "CREATE TABLE IF NOT EXISTS `t` ( `id` TEXT NOT NULL, PRIMARY KEY (`id`) ) ENGINE = InnoDB CHARACTER SET utf8" /\
  auto_increment_of id_text_column = Ok "".
Proof. split; reflexivity. Qed.

(** C10, as amended: when more than one column has the primary-key flag
    and the last of them has a non-empty name, the statement has exactly
    one PRIMARY KEY clause, between the column definitions and the tail,
    and it names the last flagged column only: the loop ends with that
    column's name as the primary key, and the earlier flagged columns are
    not in the key. *)
Theorem C10_last_primary_key_wins
        (table_name : string) (before after : list column) (c : column)
        (sql : string) :
  Exists (fun x => truthy (pk x) = true) before ->
  truthy (pk c) = true ->
  Forall (fun x => truthy (pk x) = false) after ->
  name c <> "" ->
  create_table_sql table_name (before ++ c :: after) = Ok sql ->
  create_table_loop (before ++ c :: after) (create_table_head table_name) ""
  = Ok (create_table_head table_name ++ frags (before ++ c :: after), name c) /\
  sql = join " " (split
          (rstrip_chars ", "
             (create_table_head table_name ++ frags (before ++ c :: after))
           ++ (", PRIMARY KEY (`" ++ name c ++ "`)")
           ++ create_table_tail)) /\
  contains "PRIMARY KEY" sql = true /\
  (text_free "PRIMARY" table_name (before ++ c :: after) ->
   contains "PRIMARY"
     (rstrip_chars ", "
        (create_table_head table_name ++ frags (before ++ c :: after)))
   = false /\
   contains "PRIMARY" create_table_tail = false).
Proof.
  intros _ Hpk Ha Hname Hsql.
  pose proof (create_table_sql_ok _ _ _ Hsql) as Hall.
  pose proof (last_pk_last before after c "" Hpk Ha) as Hl.
  split; [|split; [|split]].
  - now rewrite create_table_loop_spec, Hall, Hl.
  - rewrite create_table_sql_spec, Hall, Hl in Hsql.
    rewrite (primary_key_clause_named _ Hname) in Hsql.
    now injection Hsql as <-.
  - now apply (contains_primary_key table_name (before ++ c :: after) (name c)).
  - intros Hf. split; [|reflexivity].
    apply (free_body "PRIMARY" eq_refl); [exact Hf | now right].
Qed.

Lemma C10_witness :
  create_table_sql "t" [a_int_column; b_int_column]
  = Ok "CREATE TABLE IF NOT EXISTS `t` ( `a` INT NULL AUTO_INCREMENT, `b` INT NULL AUTO_INCREMENT, PRIMARY KEY (`b`) ) ENGINE = InnoDB CHARACTER SET utf8"
  /\ create_table_loop [a_int_column; b_int_column] (create_table_head "t") ""
     = Ok (create_table_head "t" ++ frags [a_int_column; b_int_column], "b").
Proof.
  assert (H : create_table_sql "t" [a_int_column; b_int_column]
              = Ok "CREATE TABLE IF NOT EXISTS `t` ( `a` INT NULL AUTO_INCREMENT, `b` INT NULL AUTO_INCREMENT, PRIMARY KEY (`b`) ) ENGINE = InnoDB CHARACTER SET utf8")
    by reflexivity.
  assert (E : Exists (fun x => truthy (pk x) = true) [a_int_column])
    by (constructor; reflexivity).
  assert (N : name b_int_column <> "") by discriminate.
  destruct (C10_last_primary_key_wins "t" [a_int_column] [] b_int_column _
              E eq_refl (Forall_nil _) N H) as (L & _).
  split; [exact H | exact L].
Defined.

(** C10, as stated, fails: when the last flagged column has the empty
    name, the statement has no PRIMARY KEY clause at all. *)
Lemma C10_counterexample :
  truthy (pk a_int_column) = true /\
  truthy (pk unnamed_int_column) = true /\
  create_table_sql "t" [a_int_column; unnamed_int_column]
  = Ok "CREATE TABLE IF NOT EXISTS `t` ( `a` INT NULL AUTO_INCREMENT, `` INT NULL AUTO_INCREMENT ) ENGINE = InnoDB CHARACTER SET utf8" /\
  contains "PRIMARY KEY"
    "CREATE TABLE IF NOT EXISTS `t` ( `a` INT NULL AUTO_INCREMENT, `` INT NULL AUTO_INCREMENT ) ENGINE = InnoDB CHARACTER SET utf8"
  = false.
Proof. repeat split. Qed.

(* ================================================================== *)
(** ** The transfer pipeline: lemmas *)

Section PipelineFacts.

Variable db : sqlite_db.
Variable chunk_size : option Z.
Variable mysql_raises : list call -> bool.

Lemma ceil_div_spec (a b : Z) :
  (0 < b)%Z -> ((ceil_div a b - 1) * b < a <= ceil_div a b * b)%Z.
Proof.
  intros Hb. unfold ceil_div.
  pose proof (Z.div_mod (- a) b ltac:(lia)) as E.
  pose proof (Z.mod_pos_bound (- a) b Hb) as B.
  nia.
Qed.

Lemma length_chunks (n size : nat) (rows : list row) :
  List.length (chunks n size rows) = n.
Proof.
  revert rows. induction n as [|n IH]; intros rows; simpl; [reflexivity|].
  now rewrite IH.
Qed.

Lemma concat_chunks (n size : nat) (rows : list row) :
  List.length rows <= n * size -> List.concat (chunks n size rows) = rows.
Proof.
  revert rows. induction n as [|n IH]; intros rows H; simpl.
  - destruct rows; [reflexivity | simpl in H; lia].
  - rewrite IH; [apply firstn_skipn|].
    rewrite length_skipn. simpl in H. lia.
Qed.

Lemma skipn_chunks (n size : nat) (rows : list row) :
  List.length rows <= n * size -> skipn (n * size) rows = [].
Proof. intros H. now apply skipn_all2. Qed.

Lemma chunks_nonempty (n size : nat) (rows : list row) :
  0 < size -> (n - 1) * size < List.length rows ->
  Forall (fun b => b <> [] /\ List.length b <= size) (chunks n size rows).
Proof.
  intros Hs. revert rows. induction n as [|n IH]; intros rows H; simpl.
  - constructor.
  - constructor.
    + split; [|apply firstn_le_length].
      destruct rows; [simpl in H; lia|].
      destruct size; [lia | discriminate].
    + destruct n as [|n]; [constructor|].
      apply IH. rewrite length_skipn. simpl in *. lia.
Qed.

(** [fetchmany] on a size it accepts. *)
Lemma fetchmany_run (size : Z) (w : world) :
  (size <= INT_MAX)%Z ->
  fetchmany size w
  = (Ok (firstn (Z.to_nat size) (sqlite_cur w)),
     {| sqlite_cur := skipn (Z.to_nat size) (sqlite_cur w);
        mysql_calls := mysql_calls w |}).
Proof.
  intros H. unfold fetchmany.
  now replace (INT_MAX <? size)%Z with false by (symmetry; apply Z.ltb_ge; lia).
Qed.

(** The loop of the chunked branch when MySQL accepts every call. *)
Lemma chunk_loop_run (n : nat) (sql : string) (size : Z) (w : world) :
  (size <= INT_MAX)%Z ->
  (forall l, mysql_raises l = false) ->
  chunk_loop mysql_raises n sql size w
  = (Ok tt,
     {| sqlite_cur := skipn (n * Z.to_nat size) (sqlite_cur w);
        mysql_calls :=
          (mysql_calls w
           ++ flat_map (batch_calls sql)
                (chunks n (Z.to_nat size) (sqlite_cur w)))%list |}).
Proof.
  intros Hs Hm. revert w. induction n as [|n IH]; intros w.
  - simpl. unfold ret. rewrite app_nil_r. now destruct w.
  - simpl chunk_loop. unfold bind. rewrite (fetchmany_run size w Hs).
    unfold mysql_call. simpl.
    rewrite !Hm. rewrite IH. simpl.
    rewrite <- !app_assoc. simpl.
    now rewrite Nat.add_comm, <- skipn_skipn.
Qed.

End PipelineFacts.

Section PipelineRuns.

Variable db : sqlite_db.
Variable chunk_size : option Z.
Variable mysql_raises : list call -> bool.

Lemma bind_run {A B : Type} (m : M A) (k : A -> M B) (w : world) :
  bind m k w
  = match m w with
    | (Ok a, w') => k a w'
    | (Raise e, w') => (Raise e, w')
    end.
Proof. reflexivity. Qed.

Lemma bind_assoc {A B C : Type} (m : M A) (f : A -> M B) (g : B -> M C)
      (w : world) :
  bind (bind m f) g w = bind m (fun x => bind (f x) g) w.
Proof.
  unfold bind. destruct (m w) as [[a|e] w']; reflexivity.
Qed.

(** When SQLite raises on the PRAGMA, so does [_create_table]. *)
Lemma create_table_unanswered (t : string) (w : world) :
  table_info db t = None ->
  _create_table db mysql_raises t w = (Raise SQLiteError, cleared w).
Proof.
  intros I. unfold _create_table, bind, sqlite_query. now rewrite I.
Qed.

Lemma create_table_raise (t : string) (cols : list column) (e : exn)
      (w : world) :
  table_info db t = Some cols ->
  create_table_sql t cols = Raise e ->
  _create_table db mysql_raises t w = (Raise e, cleared w).
Proof.
  intros I H. unfold _create_table, bind, sqlite_query, lift. rewrite I.
  simpl. now rewrite H.
Qed.

Lemma create_table_run (t sql : string) (cols : list column) (w : world) :
  table_info db t = Some cols ->
  create_table_sql t cols = Ok sql ->
  _create_table db mysql_raises t w
  = if mysql_raises (mysql_calls w ++ [Execute sql])%list
    then (Raise MySQLError,
          {| sqlite_cur := [];
             mysql_calls := (mysql_calls w ++ [Execute sql])%list |})
    else if mysql_raises (mysql_calls w ++ [Execute sql; Commit])%list
    then (Raise MySQLError,
          {| sqlite_cur := [];
             mysql_calls := (mysql_calls w ++ [Execute sql; Commit])%list |})
    else (Ok tt,
          {| sqlite_cur := [];
             mysql_calls := (mysql_calls w ++ [Execute sql; Commit])%list |}).
Proof.
  intros I H.
  unfold _create_table, bind, sqlite_query, lift, catch_mysql, mysql_call,
    raise.
  rewrite I. simpl. rewrite H.
  destruct (mysql_raises (mysql_calls w ++ [Execute sql])%list); [reflexivity|].
  simpl. rewrite <- app_assoc. simpl.
  destruct (mysql_raises (mysql_calls w ++ [Execute sql; Commit])%list);
    reflexivity.
Qed.

(** [_create_table] leaves the cursor drained and issues no insert. *)
Lemma create_table_effect (t : string) (w : world) :
  sqlite_cur (snd (_create_table db mysql_raises t w)) = [] /\
  exists new,
    mysql_calls (snd (_create_table db mysql_raises t w))
    = (mysql_calls w ++ new)%list /\
    Forall (fun c => is_data_call c = false) new.
Proof.
  destruct (table_info db t) as [cols|] eqn:I.
  - destruct (create_table_sql t cols) as [sql|e] eqn:H.
    + rewrite (create_table_run t sql cols w I H).
      destruct (mysql_raises (mysql_calls w ++ [Execute sql])%list).
      * split; [reflexivity|]. exists [Execute sql]. split; [reflexivity|].
        repeat constructor.
      * destruct (mysql_raises (mysql_calls w ++ [Execute sql; Commit])%list);
          (split; [reflexivity|]; exists [Execute sql; Commit];
           split; [reflexivity | repeat constructor]).
    + rewrite (create_table_raise t cols e w I H).
      split; [reflexivity|]. exists []. split; [|constructor].
      simpl. now rewrite app_nil_r.
  - rewrite (create_table_unanswered t w I).
    split; [reflexivity|]. exists []. split; [|constructor].
    simpl. now rewrite app_nil_r.
Qed.

(** A table for which the count query answers zero: [transfer] does what
    [_create_table] does. *)
Lemma transfer_table_empty (t : string) (w : world) :
  count_rows db t = Some 0%Z ->
  transfer_table db chunk_size mysql_raises t w
  = _create_table db mysql_raises t w.
Proof.
  intros H. unfold transfer_table.
  pose proof (create_table_effect t w) as [C _].
  unfold bind at 1.
  destruct (_create_table db mysql_raises t w) as [[[]|e] w'];
    [|reflexivity].
  unfold bind, sqlite_query, ret. rewrite H. simpl in *.
  destruct w' as [cur calls]. simpl in *. now subst cur.
Qed.

Lemma transfer_table_raise (t : string) (cols : list column) (e : exn)
      (w : world) :
  table_info db t = Some cols ->
  create_table_sql t cols = Raise e ->
  transfer_table db chunk_size mysql_raises t w = (Raise e, cleared w).
Proof.
  intros I H. unfold transfer_table. unfold bind at 1.
  now rewrite (create_table_raise t cols e w I H).
Qed.

(** A table whose count query SQLite raises on, as it does for a name
    that breaks that query and not the PRAGMA: the table is created, and
    the transfer ends with the SQLite error before any row is read. *)
Lemma transfer_table_uncounted (t ddl : string) (cols : list column)
      (w : world) :
  table_info db t = Some cols ->
  create_table_sql t cols = Ok ddl ->
  mysql_raises (mysql_calls w ++ [Execute ddl])%list = false ->
  mysql_raises (mysql_calls w ++ [Execute ddl; Commit])%list = false ->
  count_rows db t = None ->
  transfer_table db chunk_size mysql_raises t w
  = (Raise SQLiteError,
     {| sqlite_cur := [];
        mysql_calls := (mysql_calls w ++ [Execute ddl; Commit])%list |}).
Proof.
  intros I H R1 R2 C. unfold transfer_table. rewrite bind_run.
  rewrite (create_table_run t ddl cols w I H), R1, R2.
  rewrite bind_run. unfold sqlite_query. now rewrite C.
Qed.

(** A chunk size beyond [INT_MAX]: the first round ends with the
    [OverflowError] of [fetchmany], before any call to MySQL. *)
Lemma chunk_loop_overflow (n : nat) (sql : string) (size : Z) (w : world) :
  (INT_MAX < size)%Z ->
  chunk_loop mysql_raises (S n) sql size w = (Raise OverflowError, w).
Proof.
  intros H. simpl chunk_loop. unfold bind, fetchmany.
  now replace (INT_MAX <? size)%Z with true by (symmetry; now apply Z.ltb_lt).
Qed.

Lemma transfer_tables_app (a b : list string) (w : world) :
  transfer_tables db chunk_size mysql_raises (a ++ b) w
  = bind (transfer_tables db chunk_size mysql_raises a)
      (fun _ => transfer_tables db chunk_size mysql_raises b) w.
Proof.
  revert w. induction a as [|t a IH]; intros w.
  - reflexivity.
  - simpl. rewrite bind_assoc, !bind_run.
    destruct (transfer_table db chunk_size mysql_raises t w) as [[[]|e] w'];
      [|reflexivity].
    apply IH.
Qed.

End PipelineRuns.

(* ================================================================== *)
(** ** The transfer pipeline: the claims *)

(** C3, as amended: a cursor with N > 0 rows (N below 2^53, where the
    quotient of the source is exact), a chunk size C > 0 that [fetchmany]
    accepts (C at most [INT_MAX]), MySQL accepting every call:
    [_transfer_table_data] issues one multi-row insert per batch, each
    followed by one commit; the number of batches is the ceiling of N / C;
    the batches, put end to end, are the source rows (so their union is the
    source rows as a multiset); no batch is empty or longer than C. *)
Theorem C3_chunked_transfer (mysql_raises : list call -> bool) (sql : string)
        (rows : list row) (size : Z) (calls : list call) :
  rows <> [] ->
  (Z.of_nat (List.length rows) < 2 ^ 53)%Z ->
  (0 < size <= INT_MAX)%Z ->
  (forall l, mysql_raises l = false) ->
  let total := Z.of_nat (List.length rows) in
  let batches :=
    chunks (Z.to_nat (ceil_div total size)) (Z.to_nat size) rows in
  _transfer_table_data (Some size) mysql_raises sql total
    {| sqlite_cur := rows; mysql_calls := calls |}
  = (Ok tt,
     {| sqlite_cur := [];
        mysql_calls := (calls ++ flat_map (batch_calls sql) batches)%list |}) /\
  Z.of_nat (List.length batches) = ceil_div total size /\
  ((ceil_div total size - 1) * size < total <= ceil_div total size * size)%Z /\
  List.concat batches = rows /\
  Permutation (List.concat batches) rows /\
  Forall (fun b => b <> [] /\ (Z.of_nat (List.length b) <= size)%Z) batches.
Proof.
  intros Hrows _ [Hsize Hmax] Hm total batches.
  pose proof (ceil_div_spec total size Hsize) as [Hlo Hhi].
  assert (Hpos : (0 < total)%Z).
  { unfold total. destruct rows; [congruence | simpl; lia]. }
  assert (Hk : (1 <= ceil_div total size)%Z) by nia.
  assert (Hcover : List.length rows
                   <= Z.to_nat (ceil_div total size) * Z.to_nat size).
  { rewrite <- Z2Nat.inj_mul by lia.
    rewrite <- (Nat2Z.id (List.length rows)). apply Z2Nat.inj_le; lia. }
  assert (Hconcat : List.concat batches = rows) by now apply concat_chunks.
  split; [|split; [|split; [|split; [|split]]]].
  - unfold _transfer_table_data.
    replace (0 <? size)%Z with true by (symmetry; now apply Z.ltb_lt).
    rewrite chunk_loop_run by assumption. simpl sqlite_cur. simpl mysql_calls.
    now rewrite skipn_chunks.
  - unfold batches. rewrite length_chunks. lia.
  - split; assumption.
  - exact Hconcat.
  - now rewrite Hconcat.
  - assert (F : Forall (fun b => b <> [] /\ List.length b <= Z.to_nat size)
                  batches).
    { apply chunks_nonempty; [lia|].
      apply Nat2Z.inj_lt. rewrite Nat2Z.inj_mul, Nat2Z.inj_sub by lia.
      rewrite !Z2Nat.id by lia. exact Hlo. }
    eapply Forall_impl; [|exact F]. intros b [Hb Hl]. split; [exact Hb | lia].
Qed.

Lemma C3_witness :
  _transfer_table_data (Some 2%Z) mysql_accepts "INSERT" 3
    {| sqlite_cur := three_rows; mysql_calls := [] |}
  = (Ok tt,
     {| sqlite_cur := [];
        mysql_calls :=
          [ExecuteMany "INSERT" [[VInteger 1; VText "a"]; [VInteger 2; VText "b"]];
           Commit;
           ExecuteMany "INSERT" [[VInteger 3; VNull]];
           Commit] |}).
Proof.
  assert (R : three_rows <> []) by discriminate.
  assert (B : (Z.of_nat (List.length three_rows) < 2 ^ 53)%Z) by reflexivity.
  assert (S : (0 < 2 <= INT_MAX)%Z) by (split; [reflexivity | discriminate]).
  assert (A : forall l, mysql_accepts l = false) by reflexivity.
  exact (proj1 (C3_chunked_transfer mysql_accepts "INSERT" three_rows 2 []
                  R B S A)).
Defined.

(** C3, as stated, fails: a chunk size beyond [INT_MAX] is not one
    [fetchmany] takes.  With three rows and the chunk size 2^31 the claim
    has one batch, the ceiling of 3 / 2^31; the first [fetchmany] raises
    [OverflowError], no insert and no commit is issued, and the rows stay
    in the cursor. *)
Lemma C3_counterexample :
  ceil_div 3 (2 ^ 31) = 1%Z /\
  _transfer_table_data (Some (2 ^ 31)%Z) mysql_accepts "INSERT" 3
    {| sqlite_cur := three_rows; mysql_calls := [] |}
  = (Raise OverflowError,
     {| sqlite_cur := three_rows; mysql_calls := [] |}).
Proof. split; reflexivity. Qed.

(** The chunked transfer inside [transfer]: after the statement that
    creates the table and its commit, the batches of the table's rows. *)
Lemma transfer_table_chunked (db : sqlite_db) (mysql_raises : list call -> bool)
      (t ddl : string) (cols : list column) (r : result_set) (size : Z)
      (w : world) :
  table_info db t = Some cols ->
  select_all db t = Some r ->
  count_rows db t = Some (Z.of_nat (List.length (records r))) ->
  records r <> [] ->
  (0 < size <= INT_MAX)%Z ->
  (forall l, mysql_raises l = false) ->
  create_table_sql t cols = Ok ddl ->
  let rows := records r in
  let total := Z.of_nat (List.length rows) in
  transfer_table db (Some size) mysql_raises t w
  = (Ok tt,
     {| sqlite_cur := [];
        mysql_calls :=
          (mysql_calls w ++ [Execute ddl; Commit]
           ++ flat_map (batch_calls (insert_sql t (description r)))
                (chunks (Z.to_nat (ceil_div total size)) (Z.to_nat size) rows))%list
     |}).
Proof.
  intros Hinfo Hsel Hcount Hrows [Hsize Hmax] Hm Hddl rows total.
  assert (Hpos : (0 < total)%Z).
  { unfold total, rows. destruct (records r); [congruence | simpl; lia]. }
  pose proof (ceil_div_spec total size Hsize) as [Hlo Hhi].
  assert (Hcover : List.length rows
                   <= Z.to_nat (ceil_div total size) * Z.to_nat size).
  { rewrite <- Z2Nat.inj_mul by nia.
    rewrite <- (Nat2Z.id (List.length rows)). apply Z2Nat.inj_le; lia. }
  unfold transfer_table. rewrite bind_run.
  rewrite (create_table_run db mysql_raises t ddl cols w Hinfo Hddl), !Hm.
  rewrite bind_run. unfold sqlite_query at 1. rewrite Hcount.
  fold rows. fold total.
  replace (0 <? total)%Z with true by (symmetry; now apply Z.ltb_lt).
  rewrite bind_run. unfold sqlite_select. rewrite Hsel.
  unfold catch_mysql, _transfer_table_data.
  replace (0 <? size)%Z with true by (symmetry; now apply Z.ltb_lt).
  rewrite chunk_loop_run by assumption. simpl sqlite_cur. simpl mysql_calls.
  fold rows. rewrite skipn_chunks by exact Hcover.
  now rewrite <- app_assoc.
Qed.

(** The sample database with the chunk size 2: the transfer of [good]. *)
Example transfer_good_chunked :
  transfer_table sample_db (Some 2%Z) mysql_accepts "good" start
  = (Ok tt,
     {| sqlite_cur := [];
        mysql_calls :=
          [Execute "CREATE TABLE IF NOT EXISTS `good` ( `id` INT NOT NULL AUTO_INCREMENT, `title` VARCHAR(255) NULL, PRIMARY KEY (`id`) ) ENGINE = InnoDB CHARACTER SET utf8";
           Commit;
           ExecuteMany "INSERT IGNORE INTO `good` (`id`, `title`) VALUES (%s, %s)"
             [[VInteger 1; VText "a"]; [VInteger 2; VText "b"]];
           Commit;
           ExecuteMany "INSERT IGNORE INTO `good` (`id`, `title`) VALUES (%s, %s)"
             [[VInteger 3; VNull]];
           Commit] |}).
Proof. reflexivity. Qed.

(** C8: for a table without rows, one for which the count query answers
    zero, [transfer] does exactly what [_create_table] does: the DDL step
    runs, and when the PRAGMA is answered and MySQL accepts the statement
    and the commit these are the only calls; in every case no insert is
    issued for the table. *)
Theorem C8_empty_table (db : sqlite_db) (chunk_size : option Z)
        (mysql_raises : list call -> bool) (t : string) (w : world) :
  count_rows db t = Some 0%Z ->
  transfer_table db chunk_size mysql_raises t w
  = _create_table db mysql_raises t w /\
  (forall cols sql,
     table_info db t = Some cols ->
     create_table_sql t cols = Ok sql ->
     mysql_raises (mysql_calls w ++ [Execute sql])%list = false ->
     mysql_raises (mysql_calls w ++ [Execute sql; Commit])%list = false ->
     transfer_table db chunk_size mysql_raises t w
     = (Ok tt,
        {| sqlite_cur := [];
           mysql_calls := (mysql_calls w ++ [Execute sql; Commit])%list |})) /\
  exists new,
    mysql_calls (snd (transfer_table db chunk_size mysql_raises t w))
    = (mysql_calls w ++ new)%list /\
    Forall (fun c => is_data_call c = false) new.
Proof.
  intros H.
  pose proof (transfer_table_empty db chunk_size mysql_raises t w H) as E.
  split; [exact E|]. split.
  - intros cols sql Hcols Hsql H1 H2.
    rewrite E, (create_table_run db mysql_raises t sql cols w Hcols Hsql),
      H1, H2.
    reflexivity.
  - rewrite E. apply create_table_effect.
Qed.

(** C7: when a column of a table has a declared type without a leading
    token, and the tables before it were transferred, [transfer] raises the
    invalid-type error in the DDL step of that table: MySQL has received
    the calls of the earlier tables and nothing more, so no statement and no
    row of the table, or of a later one, reaches it. *)
Theorem C7_unparseable_type_aborts (db : sqlite_db) (chunk_size : option Z)
        (mysql_raises : list call -> bool) (pre post : list string)
        (t : string) (cols : list column) (c : column) (w w1 : world) :
  table_names db = (pre ++ t :: post)%list ->
  table_info db t = Some cols ->
  In c cols ->
  no_leading_token (type c) = true ->
  transfer_tables db chunk_size mysql_raises pre w = (Ok tt, w1) ->
  _create_table db mysql_raises t w1 = (Raise invalid_column_type, cleared w1) /\
  transfer db chunk_size mysql_raises w
  = (Raise invalid_column_type,
     {| sqlite_cur := []; mysql_calls := mysql_calls w1 |}).
Proof.
  intros Hn Hcols Hin Hc Hpre.
  assert (T : translate (type c) = Raise invalid_column_type)
    by now apply translate_of_invalid, valid_column_type_none.
  pose proof (create_table_sql_raise t cols c _ Hin T) as R.
  split; [now apply create_table_raise with cols|].
  unfold transfer. rewrite Hn, transfer_tables_app, bind_run, Hpre.
  simpl transfer_tables. rewrite bind_run.
  now rewrite (transfer_table_raise db chunk_size mysql_raises t cols _ w1
                 Hcols R).
Qed.

Lemma C7_witness :
  transfer sample_db None mysql_accepts start
  = (Raise invalid_column_type,
     {| sqlite_cur := []; mysql_calls := good_calls |}).
Proof.
  assert (I : In untyped_column [title_column; untyped_column])
    by (right; left; reflexivity).
  exact (proj2 (C7_unparseable_type_aborts sample_db None mysql_accepts
                  ["good"] ["later"] "bad" [title_column; untyped_column]
                  untyped_column start
                  {| sqlite_cur := []; mysql_calls := good_calls |}
                  eq_refl eq_refl I eq_refl eq_refl)).
Defined.

Lemma C8_witness :
  transfer_table sample_db None mysql_accepts "later" start
  = (Ok tt,
     {| sqlite_cur := [];
        mysql_calls :=
          [Execute "CREATE TABLE IF NOT EXISTS `later` ( `title` VARCHAR(255) NULL ) ENGINE = InnoDB CHARACTER SET utf8";
           Commit] |}).
Proof.
  destruct (C8_empty_table sample_db None mysql_accepts "later" start eq_refl)
    as (_ & H & _).
  exact (H [title_column] _ eq_refl eq_refl eq_refl eq_refl).
Defined.

(* ================================================================== *)
(** ** The type translator: letter case *)

Section LetterCase.

Lemma upper_char_idem (c : ascii) : upper_char (upper_char c) = upper_char c.
Proof. destruct c as [[] [] [] [] [] [] [] []]; reflexivity. Qed.

Lemma is_digit_upper_char (c : ascii) : is_digit (upper_char c) = is_digit c.
Proof. destruct c as [[] [] [] [] [] [] [] []]; reflexivity. Qed.

Lemma upper_char_digit (c : ascii) : is_digit c = true -> upper_char c = c.
Proof. destruct c as [[] [] [] [] [] [] [] []]; (reflexivity || discriminate). Qed.

Lemma eqb_upper_char_lparen (c : ascii) :
  Ascii.eqb (upper_char c) "(" = Ascii.eqb c "(".
Proof. destruct c as [[] [] [] [] [] [] [] []]; reflexivity. Qed.

Lemma eqb_upper_char_rparen (c : ascii) :
  Ascii.eqb (upper_char c) ")" = Ascii.eqb c ")".
Proof. destruct c as [[] [] [] [] [] [] [] []]; reflexivity. Qed.

Lemma eqb_upper_char_newline (c : ascii) :
  Ascii.eqb (upper_char c) Re.newline = Ascii.eqb c Re.newline.
Proof. destruct c as [[] [] [] [] [] [] [] []]; reflexivity. Qed.

Lemma not_lparen_upper_char (c : ascii) :
  Re.not_lparen (upper_char c) = Re.not_lparen c.
Proof. unfold Re.not_lparen. now rewrite eqb_upper_char_lparen. Qed.

Lemma upper_idem (s : string) : upper (upper s) = upper s.
Proof.
  induction s as [|c s IH]; simpl; [reflexivity|].
  now rewrite upper_char_idem, IH.
Qed.

Lemma upper_append (a b : string) : upper (a ++ b) = upper a ++ upper b.
Proof. induction a as [|x a IH]; simpl; [reflexivity | now rewrite IH]. Qed.

Lemma upper_digits (ds : string) :
  all_chars is_digit ds = true -> upper ds = ds.
Proof.
  induction ds as [|c ds IH]; simpl; [reflexivity|].
  intros H. apply andb_true_iff in H as [Hc Hd].
  now rewrite (upper_char_digit c Hc), (IH Hd).
Qed.

Variable p : ascii -> bool.
Hypothesis p_upper : forall c, p (upper_char c) = p c.

Lemma take_while_upper (s : string) :
  take_while p (upper s) = upper (take_while p s).
Proof.
  induction s as [|c s IH]; simpl; [reflexivity|].
  rewrite p_upper. destruct (p c); simpl; [now rewrite IH | reflexivity].
Qed.

Lemma drop_while_upper (s : string) :
  drop_while p (upper s) = upper (drop_while p s).
Proof.
  induction s as [|c s IH]; simpl; [reflexivity|].
  rewrite p_upper. destruct (p c); [exact IH | reflexivity].
Qed.

Lemma rstrip_by_upper (s : string) :
  rstrip_by p (upper s) = upper (rstrip_by p s).
Proof.
  induction s as [|c s IH]; simpl; [reflexivity|].
  rewrite IH, p_upper. destruct (rstrip_by p s); simpl; [|reflexivity].
  destruct (p c); reflexivity.
Qed.

End LetterCase.

Lemma strip_upper (s : string) : strip (upper s) = upper (strip s).
Proof.
  unfold strip, lstrip_by.
  rewrite (drop_while_upper is_space is_space_upper_char).
  apply (rstrip_by_upper is_space is_space_upper_char).
Qed.

Lemma valid_column_type_upper (s : string) :
  _valid_column_type (upper s) = option_map upper (_valid_column_type s).
Proof.
  unfold _valid_column_type, Re.COLUMN_PATTERN_match.
  rewrite strip_upper, (take_while_upper Re.not_lparen not_lparen_upper_char).
  destruct (take_while Re.not_lparen (strip s)); reflexivity.
Qed.

Lemma at_dollar_upper (s : string) : Re.at_dollar (upper s) = Re.at_dollar s.
Proof.
  destruct s as [|c [|d s]]; simpl; try reflexivity.
  apply eqb_upper_char_newline.
Qed.

Lemma length_suffix_at_upper (s : string) :
  Re.length_suffix_at (upper s) = Re.length_suffix_at s.
Proof.
  destruct s as [|c r]; [reflexivity|].
  unfold Re.length_suffix_at. simpl upper. cbv beta iota.
  rewrite eqb_upper_char_lparen.
  destruct (Ascii.eqb c "("); [|reflexivity].
  rewrite (take_while_upper is_digit is_digit_upper_char),
    (drop_while_upper is_digit is_digit_upper_char),
    (upper_digits _ (take_while_all is_digit r)).
  destruct (take_while is_digit r) as [|x ds]; [reflexivity|].
  destruct (drop_while is_digit r) as [|d tl]; [reflexivity|].
  simpl upper. cbv beta iota.
  now rewrite eqb_upper_char_rparen, at_dollar_upper.
Qed.

Lemma length_suffix_search_upper (s : string) :
  Re.length_suffix_search (upper s) = Re.length_suffix_search s.
Proof.
  induction s as [|c s IH]; [reflexivity|].
  change (upper (String c s)) with (String (upper_char c) (upper s)).
  rewrite !length_suffix_search_cons.
  change (String (upper_char c) (upper s)) with (upper (String c s)).
  now rewrite length_suffix_at_upper, IH.
Qed.

Lemma column_type_length_upper (s : string) (d : option N) :
  _column_type_length (upper s) d = _column_type_length s d.
Proof. unfold _column_type_length. now rewrite length_suffix_search_upper. Qed.

Lemma translate_upper (s : string) : translate (upper s) = translate s.
Proof.
  unfold _translate_type_from_sqlite_to_mysql.
  rewrite valid_column_type_upper, upper_idem, !column_type_length_upper.
  destruct (_valid_column_type s) as [m|]; simpl; [|reflexivity].
  now rewrite upper_idem.
Qed.

(** X1: the translator does not see letter case: two declarations that
    differ only in the case of their letters have the same translation, or
    both have none. *)
Theorem X1_translate_ignores_case (s1 s2 : string) :
  upper s1 = upper s2 -> translate s1 = translate s2.
Proof.
  intros H. now rewrite <- (translate_upper s1), H, translate_upper.
Qed.

Lemma X1_witness :
  translate "VarChar(30)" = translate "varchar(30)".
Proof. exact (X1_translate_ignores_case "VarChar(30)" "varchar(30)" eq_refl). Defined.

(* ================================================================== *)
(** ** The type translator: the forms of a translation *)

Lemma column_type_length_shape (s : string) :
  length_shape (_column_type_length s None).
Proof.
  unfold _column_type_length.
  destruct (Re.length_suffix_search s) as [m|] eqn:E; [|now left].
  apply length_suffix_search_spec in E as (p & ds & D & -> & _).
  right. exists ds. auto.
Qed.

Lemma column_type_length_255 (s : string) :
  exists ds, digit_run ds /\
             _column_type_length s (Some 255%N) = "(" ++ ds ++ ")".
Proof.
  unfold _column_type_length.
  destruct (Re.length_suffix_search s) as [m|] eqn:E.
  - apply length_suffix_search_spec in E as (p & ds & D & -> & _).
    exists ds. auto.
  - exists "255". split; [split; [discriminate | reflexivity] | reflexivity].
Qed.

Lemma upper_length_shape (suf : string) : length_shape suf -> upper suf = suf.
Proof.
  intros [-> | (ds & [_ D] & ->)]; [reflexivity|].
  rewrite !upper_append, (upper_digits ds D). reflexivity.
Qed.

(** The rules of the translator, one lemma per rule. *)
Lemma translate_char (s m : string) :
  _valid_column_type s = Some m ->
  mem (upper m) ["CHARACTER"; "NCHAR"; "NATIVE CHARACTER"] = true ->
  translate s = Ok ("CHAR" ++ _column_type_length s None).
Proof.
  intros V H. unfold _translate_type_from_sqlite_to_mysql. rewrite V.
  unfold mem in H. simpl in H. rewrite !orb_false_r in H.
  repeat (apply orb_true_iff in H; destruct H as [H|H]);
    apply String.eqb_eq in H; rewrite H; reflexivity.
Qed.

Lemma translate_varchar (s m : string) :
  _valid_column_type s = Some m ->
  mem (upper m) ["VARYING CHARACTER"; "NVARCHAR"; "VARCHAR"] = true ->
  translate s = Ok ("VARCHAR" ++ _column_type_length s (Some 255%N)).
Proof.
  intros V H. unfold _translate_type_from_sqlite_to_mysql. rewrite V.
  unfold mem in H. simpl in H. rewrite !orb_false_r in H.
  repeat (apply orb_true_iff in H; destruct H as [H|H]);
    apply String.eqb_eq in H; rewrite H; reflexivity.
Qed.

Lemma translate_form (s t : string) :
  translate s = Ok t -> translated_form s t.
Proof.
  unfold _translate_type_from_sqlite_to_mysql.
  destruct (_valid_column_type s) as [m|] eqn:V; [|discriminate].
  destruct (mem (upper m) ["TEXT"; "CLOB"]) eqn:M1;
    [intros [= <-]; constructor|].
  destruct (mem (upper m) ["CHARACTER"; "NCHAR"; "NATIVE CHARACTER"]) eqn:M2;
    [intros [= <-]; constructor; apply column_type_length_shape|].
  destruct (mem (upper m) ["VARYING CHARACTER"; "NVARCHAR"; "VARCHAR"]) eqn:M3.
  { intros [= <-]. destruct (column_type_length_255 s) as (ds & D & ->).
    now apply (form_varchar s ds). }
  destruct (String.eqb (upper m) "DOUBLE PRECISION") eqn:M4;
    [intros [= <-]; constructor|].
  destruct (String.eqb (upper m) "UNSIGNED BIG INT") eqn:M5;
    [intros [= <-]; constructor; apply column_type_length_shape|].
  destruct (mem (upper m) ["INT1"; "INT2"]) eqn:M6;
    [intros [= <-]; constructor|].
  intros [= <-]. apply (form_same s m V).
  unfold classified, mem in *. simpl in *.
  rewrite !orb_false_r in *.
  repeat match goal with
         | H : _ || _ = false |- _ =>
             apply orb_false_iff in H; destruct H as [? ?]
         end.
  repeat match goal with
         | H : String.eqb (upper m) _ = false |- _ => rewrite H; clear H
         end.
  reflexivity.
Qed.

Lemma valid_column_type_nonempty (s m : string) :
  _valid_column_type s = Some m -> s <> "".
Proof. intros V ->. discriminate. Qed.

Lemma upper_eq_nil (s : string) : upper s = "" -> s = "".
Proof. destruct s; [reflexivity | discriminate]. Qed.

Lemma translated_form_upper (s t : string) :
  translated_form s t -> t <> "" /\ upper t = t.
Proof.
  intros [ | suf S | ds [N D] | | suf S | | m V C];
    try (split; [discriminate | reflexivity]).
  - split; [discriminate|].
    now rewrite upper_append, (upper_length_shape suf S).
  - split; [discriminate|].
    now rewrite !upper_append, (upper_digits ds D).
  - split; [discriminate|].
    now rewrite !upper_append, (upper_length_shape suf S).
  - split; [|apply upper_idem].
    intros E. apply upper_eq_nil in E.
    now apply (valid_column_type_nonempty s m V).
Qed.

(** The leading token of a name that is followed by a parenthesis. *)
Lemma valid_column_type_named (nm rest : string) :
  all_chars Re.not_lparen nm = true ->
  drop_while is_space nm = nm -> nm <> "" ->
  _valid_column_type (nm ++ "(" ++ rest) = Some nm.
Proof.
  intros Hn Hd Hne.
  pose proof (valid_column_type_spaced nm "" rest Hn) as V.
  rewrite Hd, append_nil_r in V. simpl ("" ++ _) in V.
  now apply V.
Qed.

Lemma translated_form_fixed (s t : string) :
  translated_form s t -> translate t = Ok t.
Proof.
  intros F. pose proof (translated_form_upper s t F) as [_ U].
  destruct F as [ | suf S | ds [N D] | | suf S | | m V C];
    try reflexivity.
  - destruct S as [-> | (ds & [N D] & ->)]; [reflexivity|].
    rewrite <- U at 2.
    apply translate_unclassified with "CHAR"; [|reflexivity].
    now apply valid_column_type_named.
  - change ("VARCHAR(" ++ ds ++ ")") with ("VARCHAR" ++ "(" ++ ds ++ ")").
    rewrite (translate_varchar _ "VARCHAR");
      [|now apply valid_column_type_named | reflexivity].
    rewrite (column_type_length_recognized _ ("(" ++ ds ++ ")")); [reflexivity|].
    exists "VARCHAR", ds. repeat split; auto.
  - destruct S as [-> | (ds & [N D] & ->)]; [reflexivity|].
    rewrite <- U at 2.
    apply translate_unclassified with "BIGINT"; [|reflexivity].
    rewrite !append_assoc.
    now apply valid_column_type_named.
  - rewrite translate_upper. now apply translate_unclassified with m.
Qed.

(** X2: a translation is a fixed point of the translator: translating a
    translated type gives the same type again. *)
Theorem X2_translate_idempotent (s t : string) :
  _translate_type_from_sqlite_to_mysql s = Ok t ->
  _translate_type_from_sqlite_to_mysql t = Ok t.
Proof.
  intros H. apply translated_form_fixed with s. now apply translate_form.
Qed.

Lemma X2_witness :
  translate "VARCHAR(255)" = Ok "VARCHAR(255)".
Proof.
  exact (X2_translate_idempotent "nvarchar" "VARCHAR(255)" eq_refl).
Defined.

(** X3: the translation of a declaration that is ASCII text is never
    empty, has no lower-case letter, and has one of seven forms: TEXT, CHAR with an optional length, VARCHAR with a
    length, DOUBLE, BIGINT with an optional length and UNSIGNED, INT, or the
    upper-cased declaration of a type without a rule. *)
Theorem X3_translate_forms (s t : string) :
  ascii_text s = true ->
  translate s = Ok t ->
  translated_form s t /\ t <> "" /\ upper t = t.
Proof.
  intros _ H. pose proof (translate_form s t H) as F.
  split; [exact F | now apply translated_form_upper with s].
Qed.

Lemma X3_witness :
  translated_form "unsigned big int(20)" "BIGINT(20) UNSIGNED" /\
  upper "BIGINT(20) UNSIGNED" = "BIGINT(20) UNSIGNED".
Proof.
  destruct (X3_translate_forms "unsigned big int(20)" "BIGINT(20) UNSIGNED"
              eq_refl eq_refl) as (F & _ & U).
  split; [exact F | exact U].
Defined.

(* ================================================================== *)
(** ** The type translator: surrounding whitespace *)

Lemma drop_while_all (p : ascii -> bool) (s : string) :
  all_chars p s = true -> drop_while p s = "".
Proof.
  induction s as [|c s IH]; simpl; [reflexivity|].
  intros H. apply andb_true_iff in H as [Hc Hs]. now rewrite Hc, IH.
Qed.

Lemma drop_while_nil_all (p : ascii -> bool) (s : string) :
  drop_while p s = "" -> all_chars p s = true.
Proof.
  induction s as [|c s IH]; simpl; [reflexivity|].
  destruct (p c); [exact IH | discriminate].
Qed.

Lemma drop_while_skip (p : ascii -> bool) (a s : string) :
  all_chars p a = true -> drop_while p (a ++ s) = drop_while p s.
Proof.
  induction a as [|c a IH]; simpl; [reflexivity|].
  intros H. apply andb_true_iff in H as [Hc Ha]. now rewrite Hc, IH.
Qed.

Lemma rstrip_by_nil (p : ascii -> bool) (s : string) :
  all_chars p s = true -> rstrip_by p s = "".
Proof.
  induction s as [|c s IH]; simpl; [reflexivity|].
  intros H. apply andb_true_iff in H as [Hc Hs]. now rewrite IH, Hc.
Qed.

Lemma rstrip_by_skip (p : ascii -> bool) (s b : string) :
  all_chars p b = true -> rstrip_by p (s ++ b) = rstrip_by p s.
Proof.
  intros H. induction s as [|c s IH]; simpl.
  - now apply rstrip_by_nil.
  - now rewrite IH.
Qed.

Lemma strip_surrounded (a s b : string) :
  all_chars is_space a = true -> all_chars is_space b = true ->
  strip (a ++ s ++ b) = strip s.
Proof.
  intros Ha Hb. unfold strip, lstrip_by.
  rewrite (drop_while_skip _ a _ Ha).
  destruct (drop_while is_space s) as [|c r] eqn:E.
  - apply drop_while_nil_all in E.
    rewrite drop_while_all; [reflexivity|].
    rewrite all_chars_app. now rewrite E, Hb.
  - rewrite drop_while_app by (rewrite E; discriminate).
    rewrite E. now apply rstrip_by_skip.
Qed.

(** X4: whitespace around a declaration changes neither its leading
    token nor whether the translator accepts it. *)
Theorem X4_surrounding_whitespace (a s b : string) :
  all_chars is_space a = true ->
  all_chars is_space b = true ->
  _valid_column_type (a ++ s ++ b) = _valid_column_type s /\
  (translate (a ++ s ++ b) = Raise invalid_column_type
   <-> translate s = Raise invalid_column_type).
Proof.
  intros Ha Hb.
  assert (V : _valid_column_type (a ++ s ++ b) = _valid_column_type s).
  { unfold _valid_column_type. now rewrite strip_surrounded. }
  split; [exact V|].
  destruct (_valid_column_type s) as [m|] eqn:E.
  - destruct (translate_of_valid _ _ V) as [t1 H1].
    destruct (translate_of_valid _ _ E) as [t2 H2].
    rewrite H1, H2. split; discriminate.
  - rewrite (translate_of_invalid _ V), (translate_of_invalid _ E). tauto.
Qed.

Lemma X4_witness :
  _valid_column_type "  nchar(5) " = Some "nchar".
Proof.
  exact (proj1 (X4_surrounding_whitespace "  " "nchar(5)" " " eq_refl eq_refl)).
Defined.

(* ================================================================== *)
(** ** The statements: further properties *)

Lemma translatable_spec (c : column) :
  translatable c = negb (no_leading_token (type c)).
Proof.
  unfold translatable.
  pose proof (valid_column_type_none (type c)) as V.
  destruct (_valid_column_type (type c)) as [m|] eqn:E.
  - destruct (translate_of_valid _ _ E) as [t ->].
    destruct (no_leading_token (type c)); [|reflexivity].
    destruct V as [_ V]. now specialize (V eq_refl).
  - rewrite (translate_of_invalid _ E).
    destruct V as [V _]. now rewrite (V eq_refl).
Qed.

(** X5: when the declared types are ASCII text, the statement of a table
    cannot be built exactly when one of its columns has a declared type
    without a leading token, whatever the names and the flags are; the error
    is the invalid-type error. *)
Theorem X5_create_table_sql_fails_iff (table_name : string)
        (rows : list column) :
  Forall (fun c => ascii_text (type c) = true) rows ->
  (create_table_sql table_name rows = Raise invalid_column_type
   <-> Exists (fun c => no_leading_token (type c) = true) rows) /\
  ((exists sql, create_table_sql table_name rows = Ok sql)
   <-> Forall (fun c => no_leading_token (type c) = false) rows) /\
  (forall e, create_table_sql table_name rows = Raise e ->
             e = invalid_column_type).
Proof.
  intros _.
  rewrite create_table_sql_spec.
  destruct (forallb translatable rows) eqn:F.
  - assert (A : Forall (fun c => no_leading_token (type c) = false) rows).
    { apply Forall_forall. intros c Hc.
      rewrite forallb_forall in F. specialize (F c Hc).
      rewrite translatable_spec in F. now apply negb_true_iff in F. }
    repeat split; try discriminate; eauto.
    intros E. apply Exists_exists in E as (c & Hc & E).
    rewrite Forall_forall in A. rewrite (A c Hc) in E. discriminate.
  - assert (E : Exists (fun c => no_leading_token (type c) = true) rows).
    { apply Exists_exists.
      destruct (forallb_forall translatable rows) as [_ G].
      destruct (existsb (fun c => negb (translatable c)) rows) eqn:X.
      - apply existsb_exists in X as (c & Hc & X). exists c. split; [exact Hc|].
        rewrite translatable_spec, negb_involutive in X. exact X.
      - exfalso. rewrite G in F; [discriminate|]. intros c Hc.
        destruct (translatable c) eqn:T; [reflexivity|].
        assert (Y : existsb (fun c => negb (translatable c)) rows = true)
          by (apply existsb_exists; exists c; rewrite T; auto).
        congruence. }
    repeat split; try congruence; auto.
    + intros [sql H]. discriminate.
    + intros A. apply Exists_exists in E as (c & Hc & E).
      rewrite Forall_forall in A. rewrite (A c Hc) in E. discriminate.
Qed.

Lemma X5_witness :
  create_table_sql "bad" [title_column; untyped_column]
  = Raise invalid_column_type /\
  exists sql, create_table_sql "good" [id_int_column; title_column] = Ok sql.
Proof.
  assert (A : Forall (fun c => ascii_text (type c) = true)
                [title_column; untyped_column]) by (repeat constructor).
  assert (B : Forall (fun c => ascii_text (type c) = true)
                [id_int_column; title_column]) by (repeat constructor).
  split.
  - apply (proj1 (X5_create_table_sql_fails_iff "bad" _ A)).
    apply Exists_cons_tl, Exists_cons_hd. reflexivity.
  - apply (proj1 (proj2 (X5_create_table_sql_fails_iff "good" _ B))).
    repeat constructor.
Defined.

(** *** The INSERT statement *)

Lemma format_args_slot (rest c : string) (cs : list string) :
  format_args ("`{}`, " ++ rest) (c :: cs)
  = "`" ++ c ++ "`, " ++ format_args rest cs.
Proof. reflexivity. Qed.

Lemma repeat_str_nonempty (n : nat) :
  rstrip_chars " ," (repeat_str "`{}`, " (S n)) <> "".
Proof.
  simpl repeat_str. unfold rstrip_chars.
  change ("`{}`, " ++ repeat_str "`{}`, " n)
    with (String "`" ("{}`, " ++ repeat_str "`{}`, " n)).
  rewrite rstrip_by_keep by reflexivity. discriminate.
Qed.

Lemma rstrip_repeat_slot (n : nat) :
  rstrip_chars " ," (repeat_str "`{}`, " (S (S n)))
  = "`{}`, " ++ rstrip_chars " ," (repeat_str "`{}`, " (S n)).
Proof.
  change (repeat_str "`{}`, " (S (S n)))
    with ("`{}`, " ++ repeat_str "`{}`, " (S n)).
  unfold rstrip_chars. apply rstrip_by_app. apply repeat_str_nonempty.
Qed.

Lemma insert_fields (cols : list string) :
  format_args (rstrip_chars " ," (repeat_str "`{}`, " (List.length cols))) cols
  = join ", " (map backquoted cols).
Proof.
  induction cols as [|c cols IH]; [reflexivity|].
  destruct cols as [|d cols].
  - reflexivity.
  - change (List.length (c :: d :: cols)) with (S (S (List.length cols))).
    rewrite rstrip_repeat_slot, format_args_slot.
    change (List.length (d :: cols)) with (S (List.length cols)) in IH.
    rewrite IH. unfold backquoted. simpl. now rewrite !append_assoc.
Qed.

Lemma rstrip_repeat_placeholder (n : nat) :
  rstrip_chars " ," (repeat_str "%s, " (S (S n)))
  = "%s, " ++ rstrip_chars " ," (repeat_str "%s, " (S n)).
Proof.
  change (repeat_str "%s, " (S (S n)))
    with ("%s, " ++ repeat_str "%s, " (S n)).
  unfold rstrip_chars. apply rstrip_by_app.
  simpl repeat_str.
  change ("%s, " ++ repeat_str "%s, " n)
    with (String "%" ("s, " ++ repeat_str "%s, " n)).
  rewrite rstrip_by_keep by reflexivity. discriminate.
Qed.

Lemma insert_placeholders (cols : list string) :
  rstrip_chars " ," (repeat_str "%s, " (List.length cols))
  = join ", " (map (fun _ => "%s") cols).
Proof.
  induction cols as [|c cols IH]; [reflexivity|].
  destruct cols as [|d cols]; [reflexivity|].
  change (List.length (c :: d :: cols)) with (S (S (List.length cols))).
  rewrite rstrip_repeat_placeholder.
  change (List.length (d :: cols)) with (S (List.length cols)) in IH.
  now rewrite IH.
Qed.

(** X6: the INSERT statement names every column once, in backquotes and
    in the cursor's order, separated by a comma and a space, and has one
    placeholder per column, whatever characters the names contain. *)
Theorem X6_insert_sql_fields (table_name : string) (columns : list string) :
  insert_sql table_name columns
  = "INSERT IGNORE INTO `" ++ table_name ++ "` ("
    ++ join ", " (map backquoted columns)
    ++ ") VALUES ("
    ++ join ", " (map (fun _ => "%s") columns) ++ ")".
Proof.
  unfold insert_sql. cbv zeta.
  now rewrite insert_fields, insert_placeholders.
Qed.

(** *** The text of the CREATE TABLE statement *)

Lemma split_acc_words (cur s : string) :
  all_chars (fun c => negb (is_space c)) cur = true ->
  Forall word (split_acc cur s).
Proof.
  revert cur. induction s as [|x s IH]; intros cur H; simpl.
  - destruct cur; simpl; [constructor|].
    constructor; [split; [discriminate | exact H] | constructor].
  - destruct (is_space x) eqn:X.
    + destruct cur; simpl; [now apply IH|].
      constructor; [split; [discriminate | exact H] | now apply IH].
    + apply IH. rewrite all_chars_app, H. simpl. now rewrite X.
Qed.

Lemma split_word (t : string) : word t -> split t = [t].
Proof.
  intros [N W]. unfold split.
  rewrite <- (append_nil_r t) at 1.
  rewrite (split_acc_word "" t "" W). simpl.
  destruct t; [congruence | reflexivity].
Qed.

Lemma split_join (words : list string) :
  Forall word words -> split (join " " words) = words.
Proof.
  intros H. induction H as [|t l Ht Hl IH]; [reflexivity|].
  destruct l as [|u l]; [now apply split_word|].
  change (join " " (t :: u :: l)) with (t ++ String " " (join " " (u :: l))).
  rewrite split_space by reflexivity.
  now rewrite (split_word t Ht), IH.
Qed.

(** X7: the statement handed to MySQL is a sequence of words separated by
    single spaces: it has no other whitespace, none at its ends, and
    normalising it again changes nothing. *)
Theorem X7_create_table_sql_words (table_name : string) (rows : list column)
        (sql : string) :
  create_table_sql table_name rows = Ok sql ->
  Forall word (split sql) /\
  sql = join " " (split sql).
Proof.
  rewrite create_table_sql_spec.
  destruct (forallb translatable rows); [|discriminate].
  intros [= <-].
  set (x := rstrip_chars ", " _ ++ _).
  assert (W : Forall word (split x)) by now apply split_acc_words.
  rewrite (split_join _ W). split; [exact W | reflexivity].
Qed.

Lemma X7_witness :
  Forall word
    (split "CREATE TABLE IF NOT EXISTS `t` ( `title` VARCHAR(255) NULL ) ENGINE = InnoDB CHARACTER SET utf8") /\
  "CREATE TABLE IF NOT EXISTS `t` ( `title` VARCHAR(255) NULL ) ENGINE = InnoDB CHARACTER SET utf8"
  = join " "
      (split "CREATE TABLE IF NOT EXISTS `t` ( `title` VARCHAR(255) NULL ) ENGINE = InnoDB CHARACTER SET utf8").
Proof.
  exact (X7_create_table_sql_words "t" [title_column] _ eq_refl).
Defined.

Lemma join_app_both (sep : string) (l1 l2 : list string) :
  l1 <> [] -> l2 <> [] ->
  join sep (l1 ++ l2) = join sep l1 ++ sep ++ join sep l2.
Proof.
  intros H1 H2. induction l1 as [|x l1 IH]; [congruence|].
  destruct l1 as [|y l1].
  - destruct l2 as [|z l2]; [congruence | reflexivity].
  - change (join sep ((x :: y :: l1) ++ l2))
      with (x ++ sep ++ join sep ((y :: l1) ++ l2)).
    rewrite IH by discriminate.
    change (join sep (x :: y :: l1)) with (x ++ sep ++ join sep (y :: l1)).
    now rewrite !append_assoc.
Qed.

Lemma split_starts (c : ascii) (s : string) :
  is_space c = false ->
  exists t rest, split (String c s) = String c t :: rest.
Proof.
  intros H. unfold split. simpl. rewrite H.
  destruct (split_acc_first (String c "") s) as (t & rest & E);
    [discriminate|].
  exists t, rest. exact E.
Qed.

Lemma create_table_sql_closed (table_name : string) (rows : list column)
      (sql : string) :
  create_table_sql table_name rows = Ok sql ->
  sql = join " " (split
          (rstrip_chars ", " (create_table_head table_name ++ frags rows)
           ++ primary_key_clause (last_pk rows "")
           ++ create_table_tail)).
Proof.
  rewrite create_table_sql_spec.
  destruct (forallb translatable rows); [|discriminate].
  intros E. now inversion E.
Qed.

Lemma create_table_head_split (table_name body : string) :
  create_table_head table_name ++ body
  = "CREATE TABLE IF NOT EXISTS " ++ String "`" ((table_name ++ "` ( ") ++ body).
Proof.
  unfold create_table_head. simpl. now rewrite append_assoc.
Qed.

Lemma frame_split (r k : string) :
  ("CREATE TABLE IF NOT EXISTS " ++ String "`" r) ++ k ++ create_table_tail
  = "CREATE TABLE IF NOT EXISTS"
    ++ String " " (String "`" (r ++ k)
                   ++ String " " ") ENGINE = InnoDB CHARACTER SET utf8").
Proof.
  unfold create_table_tail. simpl. now rewrite !append_assoc.
Qed.

Lemma frame_join (t suf : string) :
  "CREATE TABLE IF NOT EXISTS" ++ " " ++ (String "`" t ++ suf) ++ " "
  ++ ") ENGINE = InnoDB CHARACTER SET utf8"
  = "CREATE TABLE IF NOT EXISTS `" ++ (t ++ suf)
    ++ " ) ENGINE = InnoDB CHARACTER SET utf8".
Proof. simpl. now rewrite !append_assoc. Qed.

(** X8: every statement begins with CREATE TABLE IF NOT EXISTS and a
    backquote, and ends with the closing parenthesis and the table options
    ENGINE = InnoDB CHARACTER SET utf8. *)
Theorem X8_create_table_sql_frame (table_name : string) (rows : list column)
        (sql : string) :
  create_table_sql table_name rows = Ok sql ->
  exists mid,
    sql = "CREATE TABLE IF NOT EXISTS `" ++ mid
          ++ " ) ENGINE = InnoDB CHARACTER SET utf8".
Proof.
  intros E. apply create_table_sql_closed in E. rewrite E. clear E.
  rewrite create_table_head_split. unfold rstrip_chars.
  rewrite rstrip_by_app
    by (rewrite rstrip_by_keep by reflexivity; discriminate).
  rewrite rstrip_by_keep by reflexivity.
  rewrite frame_split.
  rewrite !split_space by reflexivity.
  match goal with
  | |- context [split (String "`" ?x)] =>
      destruct (split_starts "`" x eq_refl) as (t & rest & ->)
  end.
  change (split "CREATE TABLE IF NOT EXISTS")
    with ["CREATE"; "TABLE"; "IF"; "NOT"; "EXISTS"].
  change (split ") ENGINE = InnoDB CHARACTER SET utf8")
    with [")"; "ENGINE"; "="; "InnoDB"; "CHARACTER"; "SET"; "utf8"].
  rewrite join_app_both by discriminate.
  rewrite join_app_both by discriminate.
  destruct (join_cons " " (String "`" t) rest) as [suf ->].
  exists (t ++ suf).
  change (join " " ["CREATE"; "TABLE"; "IF"; "NOT"; "EXISTS"])
    with "CREATE TABLE IF NOT EXISTS".
  change (join " " [")"; "ENGINE"; "="; "InnoDB"; "CHARACTER"; "SET"; "utf8"])
    with ") ENGINE = InnoDB CHARACTER SET utf8".
  apply frame_join.
Qed.

Lemma X8_witness :
  exists mid,
    "CREATE TABLE IF NOT EXISTS `t` ( `title` VARCHAR(255) NULL ) ENGINE = InnoDB CHARACTER SET utf8"
    = "CREATE TABLE IF NOT EXISTS `" ++ mid
      ++ " ) ENGINE = InnoDB CHARACTER SET utf8".
Proof.
  exact (X8_create_table_sql_frame "t" [title_column] _ eq_refl).
Defined.

(* ================================================================== *)
(** ** The pipeline: what MySQL receives *)

Section Issue.

Variable mysql_raises : list call -> bool.

(** [issue] stops at the first call MySQL raises on. *)
Lemma issue_spec (pending calls : list call) :
  exists k,
    k <= List.length pending /\
    snd (issue mysql_raises calls pending) = (calls ++ firstn k pending)%list /\
    (fst (issue mysql_raises calls pending) = Ok tt ->
     k = List.length pending) /\
    (forall e, fst (issue mysql_raises calls pending) = Raise e ->
               e = MySQLError /\ 0 < k /\
               mysql_raises (calls ++ firstn k pending)%list = true) /\
    (forall j, 0 < j < k ->
               mysql_raises (calls ++ firstn j pending)%list = false).
Proof.
  revert calls. induction pending as [|c rest IH]; intros calls.
  - exists 0. simpl. rewrite app_nil_r.
    split; [lia|]. split; [reflexivity|]. split; [reflexivity|].
    split; [discriminate | intros; lia].
  - simpl issue. destruct (mysql_raises (calls ++ [c])%list) eqn:R.
    + exists 1. simpl.
      split; [lia|]. split; [reflexivity|]. split; [discriminate|].
      split; [|intros; lia].
      intros e E. injection E as <-. auto.
    + destruct (IH (calls ++ [c])%list) as (k & Hk & Hs & Hok & Hr & Hj).
      exists (S k). simpl.
      replace (calls ++ c :: firstn k rest)%list
        with ((calls ++ [c]) ++ firstn k rest)%list
        by (now rewrite <- app_assoc).
      split; [lia|]. split; [exact Hs|]. split; [intros E; f_equal; auto|].
      split.
      * intros e He. destruct (Hr e He) as (E1 & E2 & E3).
        split; [exact E1|]. split; [lia | exact E3].
      * intros j Hjk. destruct j as [|j]; [lia|]. simpl.
        destruct j as [|j]; [exact R|].
        replace (calls ++ c :: firstn (S j) rest)%list
          with ((calls ++ [c]) ++ firstn (S j) rest)%list
          by (now rewrite <- app_assoc).
        apply Hj. lia.
Qed.

Lemma issue_accepted (pending calls : list call) :
  (forall l, mysql_raises l = false) ->
  issue mysql_raises calls pending = (Ok tt, (calls ++ pending)%list).
Proof.
  intros H. revert calls. induction pending as [|c rest IH]; intros calls.
  - simpl. now rewrite app_nil_r.
  - simpl. rewrite H, IH. now rewrite <- app_assoc.
Qed.

Lemma chunk_loop_step (n : nat) (sql : string) (size : Z) (w : world) :
  (size <= INT_MAX)%Z ->
  chunk_loop mysql_raises (S n) sql size w
  = let k := Z.to_nat size in
    let c1 := (mysql_calls w
               ++ [ExecuteMany sql (firstn k (sqlite_cur w))])%list in
    let c2 := (c1 ++ [Commit])%list in
    if mysql_raises c1
    then (Raise MySQLError,
          {| sqlite_cur := skipn k (sqlite_cur w); mysql_calls := c1 |})
    else if mysql_raises c2
    then (Raise MySQLError,
          {| sqlite_cur := skipn k (sqlite_cur w); mysql_calls := c2 |})
    else chunk_loop mysql_raises n sql size
           {| sqlite_cur := skipn k (sqlite_cur w); mysql_calls := c2 |}.
Proof.
  intros Hs. cbv zeta. simpl chunk_loop. unfold bind.
  rewrite (fetchmany_run size w Hs). unfold mysql_call. cbn.
  destruct (mysql_raises
              (mysql_calls w
               ++ [ExecuteMany sql (firstn (Z.to_nat size) (sqlite_cur w))])%list);
    [reflexivity|].
  cbn.
  destruct (mysql_raises
              ((mysql_calls w
                ++ [ExecuteMany sql (firstn (Z.to_nat size) (sqlite_cur w))])
               ++ [Commit])%list);
    reflexivity.
Qed.

(** The chunked loop issues the calls of its batches through [issue]. *)
Lemma chunk_loop_issue (n : nat) (sql : string) (size : Z) (w : world) :
  (size <= INT_MAX)%Z ->
  let pending :=
    flat_map (batch_calls sql) (chunks n (Z.to_nat size) (sqlite_cur w)) in
  fst (chunk_loop mysql_raises n sql size w)
  = fst (issue mysql_raises (mysql_calls w) pending) /\
  mysql_calls (snd (chunk_loop mysql_raises n sql size w))
  = snd (issue mysql_raises (mysql_calls w) pending).
Proof.
  intros Hs. cbv zeta. revert w. induction n as [|n IH]; intros w.
  - simpl. auto.
  - rewrite chunk_loop_step by exact Hs. cbv zeta.
    simpl chunks. simpl flat_map. simpl issue.
    destruct (mysql_raises
                (mysql_calls w
                 ++ [ExecuteMany sql (firstn (Z.to_nat size) (sqlite_cur w))])%list);
      [simpl; auto|].
    destruct (mysql_raises
                ((mysql_calls w
                  ++ [ExecuteMany sql (firstn (Z.to_nat size) (sqlite_cur w))])
                 ++ [Commit])%list);
      [simpl; auto|].
    apply (IH {| sqlite_cur := skipn (Z.to_nat size) (sqlite_cur w);
                 mysql_calls :=
                   ((mysql_calls w
                     ++ [ExecuteMany sql
                           (firstn (Z.to_nat size) (sqlite_cur w))])
                    ++ [Commit])%list |}).
Qed.

End Issue.

(** X9: when the PRAGMA of a table is answered and MySQL raises on the
    CREATE TABLE statement of the table, or on the commit after it, the
    transfer of the table stops there with the MySQL error: after a rejected statement no commit is issued, and in both
    cases the rows of the table are not selected and no insert is issued. *)
Theorem X9_rejected_statement (db : sqlite_db) (chunk_size : option Z)
        (mysql_raises : list call -> bool) (t ddl : string)
        (cols : list column) (w : world) :
  table_info db t = Some cols ->
  create_table_sql t cols = Ok ddl ->
  (mysql_raises (mysql_calls w ++ [Execute ddl])%list = true ->
   transfer_table db chunk_size mysql_raises t w
   = (Raise MySQLError,
      {| sqlite_cur := [];
         mysql_calls := (mysql_calls w ++ [Execute ddl])%list |})) /\
  (mysql_raises (mysql_calls w ++ [Execute ddl])%list = false ->
   mysql_raises (mysql_calls w ++ [Execute ddl; Commit])%list = true ->
   transfer_table db chunk_size mysql_raises t w
   = (Raise MySQLError,
      {| sqlite_cur := [];
         mysql_calls := (mysql_calls w ++ [Execute ddl; Commit])%list |})).
Proof.
  intros I H. split.
  - intros R. unfold transfer_table. rewrite bind_run.
    now rewrite (create_table_run db mysql_raises t ddl cols w I H), R.
  - intros R1 R2. unfold transfer_table. rewrite bind_run.
    now rewrite (create_table_run db mysql_raises t ddl cols w I H), R1, R2.
Qed.

Lemma X9_witness :
  transfer_table sample_db None mysql_fails_first "good" start
  = (Raise MySQLError,
     {| sqlite_cur := [];
        mysql_calls :=
          [Execute "CREATE TABLE IF NOT EXISTS `good` ( `id` INT NOT NULL AUTO_INCREMENT, `title` VARCHAR(255) NULL, PRIMARY KEY (`id`) ) ENGINE = InnoDB CHARACTER SET utf8"] |}).
Proof.
  exact (proj1 (X9_rejected_statement sample_db None mysql_fails_first "good" _
                  [id_int_column; title_column] start eq_refl eq_refl)
           eq_refl).
Defined.

(** X10: without a chunk size, or with one that is zero or negative, the
    rows pending in the cursor go to MySQL in one multi-row insert followed
    by one commit, whatever row count is passed; when MySQL raises on the
    insert, no commit is issued. *)
Theorem X10_unchunked_transfer (chunk_size : option Z)
        (mysql_raises : list call -> bool) (sql : string) (total : Z)
        (w : world) :
  chunk_size = None \/ (exists z, chunk_size = Some z /\ (z <= 0)%Z) ->
  (mysql_raises (mysql_calls w ++ [ExecuteMany sql (sqlite_cur w)])%list = false ->
   mysql_raises (mysql_calls w ++ [ExecuteMany sql (sqlite_cur w); Commit])%list
   = false ->
   _transfer_table_data chunk_size mysql_raises sql total w
   = (Ok tt,
      {| sqlite_cur := [];
         mysql_calls :=
           (mysql_calls w ++ [ExecuteMany sql (sqlite_cur w); Commit])%list |})) /\
  (mysql_raises (mysql_calls w ++ [ExecuteMany sql (sqlite_cur w)])%list = true ->
   _transfer_table_data chunk_size mysql_raises sql total w
   = (Raise MySQLError,
      {| sqlite_cur := [];
         mysql_calls :=
           (mysql_calls w ++ [ExecuteMany sql (sqlite_cur w)])%list |})).
Proof.
  intros Hc.
  assert (E : _transfer_table_data chunk_size mysql_raises sql total w
              = bind fetchall
                  (fun rows =>
                     bind (mysql_call mysql_raises (ExecuteMany sql rows))
                       (fun _ => mysql_call mysql_raises Commit)) w).
  { unfold _transfer_table_data.
    destruct Hc as [-> | (z & -> & Hz)]; [reflexivity|].
    replace (0 <? z)%Z with false by (symmetry; apply Z.ltb_ge; lia).
    reflexivity. }
  rewrite E. unfold bind, fetchall, mysql_call. cbn.
  split.
  - intros R1 R2. rewrite R1. cbn. rewrite <- app_assoc. cbn.
    now rewrite R2.
  - intros R. now rewrite R.
Qed.

Lemma X10_witness :
  _transfer_table_data (Some 0%Z) mysql_accepts "INSERT" 3
    {| sqlite_cur := three_rows; mysql_calls := [] |}
  = (Ok tt,
     {| sqlite_cur := [];
        mysql_calls := [ExecuteMany "INSERT" three_rows; Commit] |}).
Proof.
  assert (C : Some 0%Z = None \/ (exists z, Some 0%Z = Some z /\ (z <= 0)%Z)).
  { right. exists 0%Z. split; [reflexivity | lia]. }
  exact (proj1 (X10_unchunked_transfer (Some 0%Z) mysql_accepts "INSERT" 3
                  {| sqlite_cur := three_rows; mysql_calls := [] |} C)
           eq_refl eq_refl).
Defined.

(** X11: in chunked mode, with a chunk size [fetchmany] accepts and a
    count below 2^53 in absolute value, the calls of the batches are issued
    in order up to the first one MySQL raises on: the run ends normally only
    when every call was issued, and a run that ends with an error ends with
    the MySQL error, its last call is the one that raised, and no earlier
    call raised. *)
Theorem X11_chunked_stops_at_first_error
        (mysql_raises : list call -> bool) (sql : string) (size total : Z)
        (w : world) :
  (0 < size <= INT_MAX)%Z ->
  (Z.abs total < 2 ^ 53)%Z ->
  let full :=
    flat_map (batch_calls sql)
      (chunks (Z.to_nat (ceil_div total size)) (Z.to_nat size) (sqlite_cur w)) in
  let run := _transfer_table_data (Some size) mysql_raises sql total w in
  exists k,
    k <= List.length full /\
    mysql_calls (snd run) = (mysql_calls w ++ firstn k full)%list /\
    (fst run = Ok tt -> k = List.length full) /\
    (forall e, fst run = Raise e ->
               e = MySQLError /\ 0 < k /\
               mysql_raises (mysql_calls w ++ firstn k full)%list = true) /\
    (forall j, 0 < j < k ->
               mysql_raises (mysql_calls w ++ firstn j full)%list = false).
Proof.
  intros [Hs Hmax] _ full run.
  assert (E : run = chunk_loop mysql_raises (Z.to_nat (ceil_div total size)) sql
                      size w).
  { unfold run, _transfer_table_data.
    now replace (0 <? size)%Z with true by (symmetry; now apply Z.ltb_lt). }
  destruct (chunk_loop_issue mysql_raises (Z.to_nat (ceil_div total size)) sql
              size w Hmax) as [E1 E2].
  fold full in E1, E2. rewrite <- E in E1, E2.
  rewrite E1, E2. apply issue_spec.
Qed.

Lemma X11_witness :
  let full :=
    flat_map (batch_calls "INSERT") (chunks 3 1 three_rows) in
  let run :=
    _transfer_table_data (Some 1%Z) mysql_fails_third "INSERT" 3
      {| sqlite_cur := three_rows; mysql_calls := [] |} in
  exists k,
    k <= List.length full /\
    mysql_calls (snd run) = firstn k full /\
    (fst run = Ok tt -> k = List.length full) /\
    (forall e, fst run = Raise e ->
               e = MySQLError /\ 0 < k /\
               mysql_fails_third (firstn k full) = true) /\
    (forall j, 0 < j < k -> mysql_fails_third (firstn j full) = false).
Proof.
  assert (S : (0 < 1 <= INT_MAX)%Z) by (split; [reflexivity | discriminate]).
  exact (X11_chunked_stops_at_first_error mysql_fails_third "INSERT" 1 3
           {| sqlite_cur := three_rows; mysql_calls := [] |} S eq_refl).
Defined.

Example chunked_third_call_raises :
  _transfer_table_data (Some 1%Z) mysql_fails_third "INSERT" 3
    {| sqlite_cur := three_rows; mysql_calls := [] |}
  = (Raise MySQLError,
     {| sqlite_cur := [[VInteger 3; VNull]];
        mysql_calls :=
          [ExecuteMany "INSERT" [[VInteger 1; VText "a"]]; Commit;
           ExecuteMany "INSERT" [[VInteger 2; VText "b"]]] |}).
Proof. reflexivity. Qed.

(* ================================================================== *)
(** ** The pipeline: the rows that reach MySQL *)

Lemma firstn_plus {A : Type} (a b : nat) (l : list A) :
  firstn (a + b) l = (firstn a l ++ firstn b (skipn a l))%list.
Proof.
  revert l. induction a as [|a IH]; intros l; [reflexivity|].
  destruct l as [|x l]; simpl.
  - now rewrite firstn_nil.
  - now rewrite IH.
Qed.

Lemma concat_chunks_firstn (n size : nat) (rows : list row) :
  List.concat (chunks n size rows) = firstn (n * size) rows.
Proof.
  revert rows. induction n as [|n IH]; intros rows; [reflexivity|].
  simpl. now rewrite IH, firstn_plus.
Qed.

Lemma inserted_rows_app (a b : list call) :
  inserted_rows (a ++ b) = (inserted_rows a ++ inserted_rows b)%list.
Proof.
  induction a as [|c a IH]; [reflexivity|].
  destruct c; simpl; rewrite IH; [reflexivity | now rewrite app_assoc | reflexivity].
Qed.

Lemma inserted_rows_batches (sql : string) (batches : list (list row)) :
  inserted_rows (flat_map (batch_calls sql) batches) = List.concat batches.
Proof.
  induction batches as [|b bs IH]; [reflexivity|].
  simpl. now rewrite IH.
Qed.

(** X12: in chunked mode the number of rounds comes from the count that is
    passed, not from the cursor: with the count T, below 2^53 in absolute
    value, and the chunk size C, one [fetchmany] accepts, the first
    ceil(T / C) * C pending rows are inserted, in order, and the others stay
    in the cursor; with a count of zero, the default of the parameter,
    nothing is inserted or committed. *)
Theorem X12_chunked_follows_the_count
        (mysql_raises : list call -> bool) (sql : string) (size total : Z)
        (w : world) :
  (0 < size <= INT_MAX)%Z ->
  (Z.abs total < 2 ^ 53)%Z ->
  (forall l, mysql_raises l = false) ->
  let n := Z.to_nat (ceil_div total size) in
  let batches := chunks n (Z.to_nat size) (sqlite_cur w) in
  _transfer_table_data (Some size) mysql_raises sql total w
  = (Ok tt,
     {| sqlite_cur := skipn (n * Z.to_nat size) (sqlite_cur w);
        mysql_calls :=
          (mysql_calls w ++ flat_map (batch_calls sql) batches)%list |}) /\
  inserted_rows (flat_map (batch_calls sql) batches)
  = firstn (n * Z.to_nat size) (sqlite_cur w) /\
  ((total <= 0)%Z ->
   _transfer_table_data (Some size) mysql_raises sql total w = (Ok tt, w)).
Proof.
  intros [Hs Hmax] _ Hm n batches.
  assert (E : _transfer_table_data (Some size) mysql_raises sql total w
              = chunk_loop mysql_raises n sql size w).
  { unfold _transfer_table_data.
    now replace (0 <? size)%Z with true by (symmetry; now apply Z.ltb_lt). }
  split; [|split].
  - rewrite E. now apply chunk_loop_run.
  - unfold batches. now rewrite inserted_rows_batches, concat_chunks_firstn.
  - intros Ht. rewrite E.
    pose proof (ceil_div_spec total size Hs) as [Hlo _].
    replace n with 0 by (unfold n; nia).
    reflexivity.
Qed.

Lemma X12_witness :
  _transfer_table_data (Some 2%Z) mysql_accepts "INSERT" 0
    {| sqlite_cur := three_rows; mysql_calls := [] |}
  = (Ok tt, {| sqlite_cur := three_rows; mysql_calls := [] |}).
Proof.
  assert (A : forall l, mysql_accepts l = false) by reflexivity.
  assert (S : (0 < 2 <= INT_MAX)%Z) by (split; [reflexivity | discriminate]).
  destruct (X12_chunked_follows_the_count mysql_accepts "INSERT" 2 0
              {| sqlite_cur := three_rows; mysql_calls := [] |} S eq_refl A)
    as (_ & _ & H).
  apply H. discriminate.
Defined.

(** X13: a transfer ends with an error exactly when the transfer of one
    of its tables does after those before it went through, and it ends with
    that error in the state that table left: no later table is touched. *)
Theorem X13_first_failure_ends_the_run (db : sqlite_db)
        (chunk_size : option Z) (mysql_raises : list call -> bool)
        (names : list string) (w w' : world) (e : exn) :
  transfer_tables db chunk_size mysql_raises names w = (Raise e, w')
  <-> exists pre t post w1,
        names = (pre ++ t :: post)%list /\
        transfer_tables db chunk_size mysql_raises pre w = (Ok tt, w1) /\
        transfer_table db chunk_size mysql_raises t w1 = (Raise e, w').
Proof.
  split.
  - revert w. induction names as [|t names IH]; intros w.
    + discriminate.
    + simpl. rewrite bind_run.
      destruct (transfer_table db chunk_size mysql_raises t w)
        as [[[]|e1] w1] eqn:T.
      * intros H. destruct (IH w1 H) as (pre & t' & post & w2 & -> & P & F).
        exists (t :: pre), t', post, w2. split; [reflexivity|].
        split; [|exact F]. simpl. now rewrite bind_run, T.
      * intros [= <- <-]. exists [], t, names, w. auto.
  - intros (pre & t & post & w1 & -> & P & F).
    rewrite transfer_tables_app, bind_run, P.
    simpl transfer_tables. now rewrite bind_run, F.
Qed.

Section WholeRun.

Variable db : sqlite_db.
Variable chunk_size : option Z.
Variable mysql_raises : list call -> bool.
Hypothesis accepts : forall l, mysql_raises l = false.
Hypothesis fits : fetchable chunk_size.

Lemma chunks_cover (size : Z) (rows : list row) :
  (0 < size)%Z ->
  List.length rows
  <= Z.to_nat (ceil_div (Z.of_nat (List.length rows)) size) * Z.to_nat size.
Proof.
  intros Hs.
  pose proof (ceil_div_spec (Z.of_nat (List.length rows)) size Hs) as [Hlo Hhi].
  rewrite <- Z2Nat.inj_mul by nia.
  rewrite <- (Nat2Z.id (List.length rows)) at 1. apply Z2Nat.inj_le; lia.
Qed.

Lemma transfer_table_data_run (sql : string) (rows : list row)
      (calls : list call) :
  rows <> [] ->
  _transfer_table_data chunk_size mysql_raises sql
    (Z.of_nat (List.length rows)) {| sqlite_cur := rows; mysql_calls := calls |}
  = (Ok tt,
     {| sqlite_cur := [];
        mysql_calls := (calls ++ data_calls chunk_size sql rows)%list |}).
Proof.
  intros Hr. unfold _transfer_table_data, data_calls.
  destruct rows as [|r rows]; [congruence|].
  set (rs := r :: rows) in *.
  assert (U : bind fetchall
                (fun rows0 =>
                   bind (mysql_call mysql_raises (ExecuteMany sql rows0))
                     (fun _ => mysql_call mysql_raises Commit))
                {| sqlite_cur := rs; mysql_calls := calls |}
              = (Ok tt,
                 {| sqlite_cur := [];
                    mysql_calls := (calls ++ [ExecuteMany sql rs; Commit])%list |})).
  { unfold bind, fetchall, mysql_call. cbn. rewrite !accepts. cbn.
    now rewrite <- app_assoc. }
  pose proof fits as Hfit. unfold fetchable in Hfit.
  destruct chunk_size as [size|]; [|exact U].
  destruct (0 <? size)%Z eqn:Hs; [|exact U].
  apply Z.ltb_lt in Hs.
  rewrite chunk_loop_run by (auto using accepts).
  cbn [sqlite_cur mysql_calls].
  now rewrite skipn_chunks by (now apply chunks_cover).
Qed.

Lemma inserted_rows_data_calls (sql : string) (rows : list row) :
  inserted_rows (data_calls chunk_size sql rows) = rows.
Proof.
  unfold data_calls. destruct rows as [|r rows]; [reflexivity|].
  set (rs := r :: rows).
  assert (U : inserted_rows [ExecuteMany sql rs; Commit] = rs)
    by (simpl; now rewrite app_nil_r).
  destruct chunk_size as [size|]; [|exact U].
  destruct (0 <? size)%Z eqn:Hs; [|exact U].
  apply Z.ltb_lt in Hs.
  rewrite inserted_rows_batches. apply concat_chunks. now apply chunks_cover.
Qed.

(** The transfer of a table that SQLite answers for and whose statement
    can be built. *)
Lemma transfer_table_run (t ddl : string) (cols : list column)
      (r : result_set) (w : world) :
  table_info db t = Some cols ->
  select_all db t = Some r ->
  count_rows db t = Some (Z.of_nat (List.length (records r))) ->
  create_table_sql t cols = Ok ddl ->
  transfer_table db chunk_size mysql_raises t w
  = (Ok tt,
     {| sqlite_cur := [];
        mysql_calls := (mysql_calls w ++ table_calls db chunk_size t)%list |}).
Proof.
  intros I S C H. unfold table_calls, calls_of. rewrite I, S, H.
  destruct (records r) as [|x rows] eqn:R.
  - rewrite (transfer_table_empty db chunk_size mysql_raises t w C).
    rewrite (create_table_run db mysql_raises t ddl cols w I H), !accepts.
    simpl. rewrite ?app_nil_r. reflexivity.
  - unfold transfer_table. rewrite bind_run.
    rewrite (create_table_run db mysql_raises t ddl cols w I H), !accepts.
    rewrite bind_run. unfold sqlite_query at 1. rewrite C.
    replace (0 <? Z.of_nat (List.length (x :: rows)))%Z with true
      by (symmetry; apply Z.ltb_lt; simpl; lia).
    rewrite bind_run. unfold sqlite_select. rewrite S, R.
    cbn [sqlite_cur mysql_calls]. unfold catch_mysql.
    rewrite transfer_table_data_run by discriminate.
    now rewrite <- app_assoc.
Qed.

Lemma inserted_rows_table_calls (t ddl : string) (cols : list column)
      (r : result_set) :
  table_info db t = Some cols ->
  select_all db t = Some r ->
  create_table_sql t cols = Ok ddl ->
  inserted_rows (table_calls db chunk_size t) = table_rows db t.
Proof.
  intros I S H. unfold table_calls, calls_of, table_rows. rewrite I, S, H.
  rewrite inserted_rows_app. simpl. apply inserted_rows_data_calls.
Qed.

(** A table with declared types that all have a leading token has a
    statement. *)
Lemma create_table_sql_built (t : string) (cols : list column) :
  Forall (fun c => no_leading_token (type c) = false) cols ->
  exists ddl, create_table_sql t cols = Ok ddl.
Proof.
  intros Hc.
  destruct (create_table_sql t cols) as [ddl|e] eqn:E; [eauto|].
  exfalso. rewrite create_table_sql_spec in E.
  destruct (forallb translatable cols) eqn:F; [discriminate|].
  assert (G : forallb translatable cols = true).
  { apply forallb_forall. intros c Hin. rewrite translatable_spec.
    rewrite Forall_forall in Hc. now rewrite (Hc c Hin). }
  congruence.
Qed.

Lemma transfer_tables_run (names : list string) (w : world) :
  Forall (answers db) names ->
  Forall (well_typed db) names ->
  fst (transfer_tables db chunk_size mysql_raises names w) = Ok tt /\
  mysql_calls (snd (transfer_tables db chunk_size mysql_raises names w))
  = (mysql_calls w ++ flat_map (table_calls db chunk_size) names)%list /\
  inserted_rows (flat_map (table_calls db chunk_size) names)
  = List.concat (map (table_rows db) names).
Proof.
  intros A. revert w.
  induction A as [|t names (cols & r & I & S & C & _) _ IH]; intros w T.
  - simpl. rewrite app_nil_r. auto.
  - inversion T as [|? ? [_ Tt] Tn]; subst.
    destruct (create_table_sql_built t cols) as [ddl Ht].
    { eapply Forall_impl; [|exact (Tt cols I)]. now intros c (_ & _ & Hc). }
    simpl transfer_tables.
    rewrite bind_run, (transfer_table_run t ddl cols r w I S C Ht).
    destruct (IH {| sqlite_cur := [];
                    mysql_calls :=
                      (mysql_calls w ++ table_calls db chunk_size t)%list |}
                 Tn)
      as (P & Q & R).
    split; [exact P|]. split.
    + rewrite Q. simpl. now rewrite <- app_assoc.
    + simpl. rewrite inserted_rows_app, R.
      now rewrite (inserted_rows_table_calls t ddl cols r I S Ht).
Qed.

End WholeRun.

(** X14: when SQLite answers the queries on every table, with a count that
    is the number of the table's rows and below 2^53, the table names, the
    column names and the declared types are ASCII text, every declared type
    has a leading token, the chunk size is one [fetchmany] accepts and MySQL
    accepts every call, [transfer] ends normally; MySQL
    has received, table after table in catalog order, the CREATE TABLE
    statement, its commit and then the inserts of the table, which list the
    columns of the cursor's description; and the rows of the inserts, taken
    in order, are the rows of the tables: every row is handed over once,
    none is added. *)
Theorem X14_transfer_hands_over_every_row (db : sqlite_db)
        (chunk_size : option Z) (mysql_raises : list call -> bool) (w : world) :
  (forall l, mysql_raises l = false) ->
  fetchable chunk_size ->
  Forall (answers db) (table_names db) ->
  Forall (well_typed db) (table_names db) ->
  fst (transfer db chunk_size mysql_raises w) = Ok tt /\
  mysql_calls (snd (transfer db chunk_size mysql_raises w))
  = (mysql_calls w ++ flat_map (table_calls db chunk_size) (table_names db))%list /\
  inserted_rows (flat_map (table_calls db chunk_size) (table_names db))
  = List.concat (map (table_rows db) (table_names db)).
Proof.
  intros Hm Hf Ha Ht. unfold transfer. now apply transfer_tables_run.
Qed.

Lemma X14_witness :
  fst (transfer sound_db (Some 2%Z) mysql_accepts start) = Ok tt /\
  mysql_calls (snd (transfer sound_db (Some 2%Z) mysql_accepts start))
  = flat_map (table_calls sound_db (Some 2%Z)) ["good"; "later"] /\
  inserted_rows (flat_map (table_calls sound_db (Some 2%Z)) ["good"; "later"])
  = three_rows.
Proof.
  assert (A : forall l, mysql_accepts l = false) by reflexivity.
  assert (F : fetchable (Some 2%Z)).
  { intros size [= <-]. discriminate. }
  assert (S : Forall (answers sound_db) (table_names sound_db)).
  { repeat constructor.
    - exists [id_int_column; title_column],
        {| description := ["id"; "title"]; records := three_rows |}.
      repeat split.
    - exists [title_column], {| description := ["title"]; records := [] |}.
      repeat split. }
  assert (T : Forall (well_typed sound_db) (table_names sound_db)).
  { repeat constructor; intros cols [= <-]; repeat constructor. }
  exact (X14_transfer_hands_over_every_row sound_db (Some 2%Z) mysql_accepts
           start A F S T).
Defined.

(* ================================================================== *)
(** ** The constructor's arguments and the transfer mode *)

Lemma unchunked_run (chunk_size : option Z) (mysql_raises : list call -> bool)
      (sql : string) (total : Z) (w : world) :
  chunk_size = None \/ (exists z, chunk_size = Some z /\ (z <= 0)%Z) ->
  (forall l, mysql_raises l = false) ->
  _transfer_table_data chunk_size mysql_raises sql total w
  = (Ok tt,
     {| sqlite_cur := [];
        mysql_calls :=
          (mysql_calls w ++ [ExecuteMany sql (sqlite_cur w); Commit])%list |}).
Proof.
  intros Hc Hm. unfold _transfer_table_data.
  assert (U : bind fetchall
                (fun rows =>
                   bind (mysql_call mysql_raises (ExecuteMany sql rows))
                     (fun _ => mysql_call mysql_raises Commit)) w
              = (Ok tt,
                 {| sqlite_cur := [];
                    mysql_calls :=
                      (mysql_calls w
                       ++ [ExecuteMany sql (sqlite_cur w); Commit])%list |})).
  { unfold bind, fetchall, mysql_call. cbn. rewrite !Hm. cbn.
    now rewrite <- app_assoc. }
  destruct Hc as [-> | (z & -> & Hz)]; [exact U|].
  replace (0 <? z)%Z with false by (symmetry; apply Z.ltb_ge; lia).
  exact U.
Qed.

(** X15: the constructor keeps a chunk argument other than zero as the
    chunk size, a negative one included, and keeps none for an argument that
    is absent or zero; and a chunk argument that is absent, zero or negative
    gives the unchunked transfer: with the settings the constructor derives
    from it, the pending rows go to MySQL in one insert and one commit. *)
Theorem X15_chunk_argument (isfile : string -> bool) (kw : kwargs)
        (cfg : settings) :
  init_settings isfile kw = inr cfg ->
  (forall z, kw_chunk kw = Some z -> z <> 0%Z -> _chunk_size cfg = Some z) /\
  (kw_chunk kw = None \/ kw_chunk kw = Some 0%Z -> _chunk_size cfg = None) /\
  (kw_chunk kw = None \/ (exists z, kw_chunk kw = Some z /\ (z <= 0)%Z) ->
   forall mysql_raises sql total w,
     (forall l, mysql_raises l = false) ->
     _transfer_table_data (_chunk_size cfg) mysql_raises sql total w
     = (Ok tt,
        {| sqlite_cur := [];
           mysql_calls :=
             (mysql_calls w ++ [ExecuteMany sql (sqlite_cur w); Commit])%list |})).
Proof.
  intros H.
  assert (C : _chunk_size cfg = int_or_none (kw_chunk kw)).
  { unfold init_settings in H.
    destruct (str_or_none (kw_sqlite_file kw)); [|discriminate].
    destruct (negb (isfile s)); [discriminate|].
    destruct (str_or_none (kw_mysql_user kw)); [|discriminate].
    injection H as <-. reflexivity. }
  rewrite C. split; [|split].
  - intros z -> Hz. simpl.
    replace (z =? 0)%Z with false by (symmetry; apply Z.eqb_neq; lia).
    reflexivity.
  - intros [-> | ->]; reflexivity.
  - intros Hk mysql_raises sql total w Hm.
    apply unchunked_run; [|exact Hm].
    destruct Hk as [-> | (z & -> & Hz)]; [now left|].
    simpl. destruct (z =? 0)%Z; [now left|]. right. eauto.
Qed.

Lemma X15_witness :
  _transfer_table_data None mysql_accepts "INSERT" 3
    {| sqlite_cur := three_rows; mysql_calls := [] |}
  = (Ok tt,
     {| sqlite_cur := [];
        mysql_calls := [ExecuteMany "INSERT" three_rows; Commit] |}).
Proof.
  assert (K : kw_chunk sample_kwargs = None
              \/ (exists z, kw_chunk sample_kwargs = Some z /\ (z <= 0)%Z)).
  { right. exists 0%Z. split; [reflexivity | lia]. }
  assert (A : forall l, mysql_accepts l = false) by reflexivity.
  exact (proj2 (proj2 (X15_chunk_argument every_file sample_kwargs _ eq_refl))
           K mysql_accepts "INSERT" 3%Z
           {| sqlite_cur := three_rows; mysql_calls := [] |} A).
Defined.

(* ================================================================== *)
(** ** The length suffix after trailing whitespace *)

Lemma recognized_length_last (s m : string) :
  recognized_length s m ->
  last_char s = Some ")"%char \/ last_char s = Some Re.newline.
Proof.
  intros (p & ds & _ & -> & [-> | ->]).
  - left. rewrite <- !append_assoc. apply last_char_app.
  - right. rewrite <- !append_assoc. apply last_char_app.
Qed.

(** X16: a declaration that ends with a whitespace character other than a
    newline has no recognized length, even when a parenthesized length
    stands before the whitespace: the VARCHAR family gets the default (255)
    in place of the declared length, and the CHARACTER family and UNSIGNED
    BIG INT lose theirs. *)
Theorem X16_trailing_whitespace_drops_length (s0 : string) (c : ascii) :
  is_space c = true ->
  c <> Re.newline ->
  (forall m, ~ recognized_length (s0 ++ String c "") m) /\
  _column_type_length (s0 ++ String c "") (Some 255%N) = "(255)" /\
  _column_type_length (s0 ++ String c "") None = "" /\
  (forall tok, _valid_column_type (s0 ++ String c "") = Some tok ->
     (mem (upper tok) ["VARYING CHARACTER"; "NVARCHAR"; "VARCHAR"] = true ->
      translate (s0 ++ String c "") = Ok "VARCHAR(255)") /\
     (mem (upper tok) ["CHARACTER"; "NCHAR"; "NATIVE CHARACTER"] = true ->
      translate (s0 ++ String c "") = Ok "CHAR") /\
     (upper tok = "UNSIGNED BIG INT" ->
      translate (s0 ++ String c "") = Ok "BIGINT UNSIGNED")).
Proof.
  intros Hc Hn.
  assert (R : forall m, ~ recognized_length (s0 ++ String c "") m).
  { intros m H. apply recognized_length_last in H.
    rewrite last_char_app in H. destruct H as [H | H]; injection H as H.
    - subst c. discriminate.
    - now apply Hn. }
  split; [exact R|]. split; [|split].
  - now rewrite (column_type_length_default _ _ R).
  - now rewrite (column_type_length_default _ _ R).
  - intros tok V. split; [|split].
    + intros H. rewrite (translate_varchar _ tok V H).
      now rewrite (column_type_length_default _ _ R).
    + intros H. rewrite (translate_char _ tok V H).
      now rewrite (column_type_length_default _ _ R).
    + intros H. unfold _translate_type_from_sqlite_to_mysql.
      rewrite V, H, !(column_type_length_default _ _ R). reflexivity.
Qed.

Lemma X16_witness :
  translate "varchar(10) " = Ok "VARCHAR(255)" /\
  translate "varchar(10)" = Ok "VARCHAR(10)".
Proof.
  assert (N : " "%char <> Re.newline) by discriminate.
  destruct (X16_trailing_whitespace_drops_length "varchar(10)" " " eq_refl N)
    as (_ & _ & _ & H).
  destruct (H "varchar" eq_refl) as (V & _).
  split; [exact (V eq_refl) | reflexivity].
Defined.

(* ================================================================== *)
(** ** The sizes of the batches *)

Lemma chunks_full (n size : nat) (rows : list row) :
  0 < size ->
  n * size < List.length rows <= S n * size ->
  exists full last,
    chunks (S n) size rows = (full ++ [last])%list /\
    List.length full = n /\
    Forall (fun b => List.length b = size) full /\
    List.length last = List.length rows - n * size.
Proof.
  intros Hs. revert rows. induction n as [|n IH]; intros rows H.
  - exists [], (firstn size rows). simpl. repeat split; auto.
    rewrite length_firstn. lia.
  - destruct (IH (skipn size rows)) as (full & last & E & L & F & K).
    { rewrite length_skipn. simpl in *. lia. }
    exists (firstn size rows :: full), last.
    change (chunks (S (S n)) size rows)
      with (firstn size rows :: chunks (S n) size (skipn size rows)).
    rewrite E. repeat split.
    + simpl. now rewrite L.
    + constructor; [|exact F]. rewrite length_firstn. simpl in H. lia.
    + rewrite K, length_skipn. simpl. lia.
Qed.

(** X17: in a chunked transfer of N > 0 rows, N below 2^53, with a chunk
    size C that [fetchmany] accepts, every batch but the last has exactly C
    rows, and the last has the remaining N - (ceil(N / C) - 1) * C rows,
    between 1 and C. *)
Theorem X17_batches_are_full (mysql_raises : list call -> bool) (sql : string)
        (rows : list row) (size : Z) (calls : list call) :
  rows <> [] ->
  (Z.of_nat (List.length rows) < 2 ^ 53)%Z ->
  (0 < size <= INT_MAX)%Z ->
  (forall l, mysql_raises l = false) ->
  let total := Z.of_nat (List.length rows) in
  exists full last,
    _transfer_table_data (Some size) mysql_raises sql total
      {| sqlite_cur := rows; mysql_calls := calls |}
    = (Ok tt,
       {| sqlite_cur := [];
          mysql_calls :=
            (calls ++ flat_map (batch_calls sql) (full ++ [last]))%list |}) /\
    Z.of_nat (List.length full) = (ceil_div total size - 1)%Z /\
    Forall (fun b => Z.of_nat (List.length b) = size) full /\
    Z.of_nat (List.length last)
    = (total - (ceil_div total size - 1) * size)%Z /\
    (1 <= Z.of_nat (List.length last) <= size)%Z.
Proof.
  intros Hrows _ [Hsize Hmax] Hm total.
  pose proof (ceil_div_spec total size Hsize) as [Hlo Hhi].
  assert (Hpos : (0 < total)%Z).
  { unfold total. destruct rows; [congruence | simpl; lia]. }
  assert (Hk : (1 <= ceil_div total size)%Z) by nia.
  set (n := Z.to_nat (ceil_div total size - 1)).
  assert (En : Z.to_nat (ceil_div total size) = S n) by (unfold n; lia).
  assert (Hb : n * Z.to_nat size < List.length rows <= S n * Z.to_nat size).
  { split.
    - apply Nat2Z.inj_lt. rewrite Nat2Z.inj_mul. unfold n.
      rewrite !Z2Nat.id by lia. exact Hlo.
    - apply Nat2Z.inj_le. rewrite Nat2Z.inj_mul, <- En.
      rewrite !Z2Nat.id by lia. exact Hhi. }
  destruct (chunks_full n (Z.to_nat size) rows ltac:(lia) Hb)
    as (full & last & E & L & F & K).
  exists full, last. split; [|split; [|split; [|split]]].
  - unfold _transfer_table_data.
    replace (0 <? size)%Z with true by (symmetry; now apply Z.ltb_lt).
    rewrite chunk_loop_run by assumption. cbn [sqlite_cur mysql_calls].
    fold total. rewrite En, E. rewrite skipn_chunks by (apply Hb).
    reflexivity.
  - rewrite L. unfold n. lia.
  - eapply Forall_impl; [|exact F]. intros b Hl. cbv beta in Hl. lia.
  - rewrite K. rewrite Nat2Z.inj_sub by lia. rewrite Nat2Z.inj_mul.
    unfold n. rewrite !Z2Nat.id by lia. reflexivity.
  - rewrite K. split.
    + lia.
    + destruct Hb as [_ Hb]. simpl in Hb. lia.
Qed.

Lemma X17_witness :
  exists full last,
    _transfer_table_data (Some 2%Z) mysql_accepts "INSERT" 3
      {| sqlite_cur := three_rows; mysql_calls := [] |}
    = (Ok tt,
       {| sqlite_cur := [];
          mysql_calls := flat_map (batch_calls "INSERT") (full ++ [last]) |}) /\
    List.length full = 1 /\ List.length last = 1.
Proof.
  assert (R : three_rows <> []) by discriminate.
  assert (B : (Z.of_nat (List.length three_rows) < 2 ^ 53)%Z) by reflexivity.
  assert (A : forall l, mysql_accepts l = false) by reflexivity.
  assert (S : (0 < 2 <= INT_MAX)%Z) by (split; [reflexivity | discriminate]).
  destruct (X17_batches_are_full mysql_accepts "INSERT" three_rows 2 []
              R B S A) as (full & last & H & L1 & _ & L2 & _).
  exists full, last. split; [exact H|]. split.
  - apply Nat2Z.inj. rewrite L1. reflexivity.
  - apply Nat2Z.inj. rewrite L2. reflexivity.
Defined.
